(** * FarmPulse AI: the video-consultation client and the call-session core

    A shallow embedding of the parts of the repository that take part in
    a video call:

    - [VideoCall]  : the React component [pages/VideoCall] (WebRTC client,
      signaling socket, media controls);
    - [Dashboards] : [handleConnectVet] of the farmer dashboard and
      [connectWebSocket] / [joinCall] of the vet dashboard;
    - [SessionCore]: the session store and lifecycle coordinator of the
      specification (the server side is not part of the sources).
    - [Protocol], [Offers]: the call page seen from the signaling channel;
    - [Routing], [VetCases], [FarmerForm], [VetSocket], [Reconnects]: the
      routes of [App] and the rest of the two dashboards.

    Definitions come first, the theorems about them after. *)

From stdpp Require Import base option list strings gmap.
From Stdlib Require Import ZArith.

Local Open Scope string_scope.
Local Open Scope list_scope.

(** ** A small monad for handler bodies

    A handler body runs over a mutable world and either completes
    normally or abruptly (a thrown exception, a rejected [await]). *)
Module Js.

Inductive Exn := TypeError | InvalidStateError | Rejected.

Inductive Completion (A : Type) :=
| Normal (a : A)
| Abrupt (e : Exn).
Arguments Normal {A} a.
Arguments Abrupt {A} e.

Definition Eff (W A : Type) : Type := W -> Completion A * W.

Definition eff_ret {W A} (a : A) : Eff W A := fun w => (Normal a, w).

Definition eff_bind {W A B} (f : A -> Eff W B) (m : Eff W A) : Eff W B :=
  fun w =>
    match m w with
    | (Normal a, w') => f a w'
    | (Abrupt e, w') => (Abrupt e, w')
    end.

Definition throw {W A} (e : Exn) : Eff W A := fun w => (Abrupt e, w).

(** [try { body } catch (error) { handler }] *)
Definition try_catch {W A} (body : Eff W A) (handler : Exn -> Eff W A)
  : Eff W A :=
  fun w =>
    match body w with
    | (Normal a, w') => (Normal a, w')
    | (Abrupt e, w') => handler e w'
    end.

(** Read and write the world. *)
Definition gets {W A} (f : W -> A) : Eff W A := fun w => (Normal (f w), w).
Definition modify {W} (f : W -> W) : Eff W unit := fun w => (Normal tt, f w).

(** [if (c) { body }] with no else branch. *)
Definition when {W} (c : bool) (body : Eff W unit) : Eff W unit :=
  if c then body else eff_ret tt.

(** [xs.forEach(f)] *)
Fixpoint for_each {W A} (f : A -> Eff W unit) (xs : list A) : Eff W unit :=
  match xs with
  | [] => eff_ret tt
  | x :: xs' => eff_bind (fun _ => for_each f xs') (f x)
  end.

(** The world a computation leaves behind, whatever its completion. *)
Definition exec {W A} (m : Eff W A) (w : W) : W := snd (m w).

End Js.

Global Instance eff_mret {W} : MRet (Js.Eff W) := @Js.eff_ret W.
Global Instance eff_mbind {W} : MBind (Js.Eff W) := @Js.eff_bind W.

(** ** The authenticated user, as [useAuth()] returns it *)
Module Auth.

Record User := { id : string; user_role : string }.

End Auth.

(** ** The video-call page *)
Module VideoCall.
Import Js Auth.

(** *** Data *)

Inductive TrackKind := audio | video.

(** A [MediaStreamTrack]: [ended] is [readyState === 'ended']. *)
Record MediaStreamTrack :=
  { kind : TrackKind; enabled : bool; ended : bool }.

(** The only [MediaStream] the component ever holds in [localStream] is
    the one [getUserMedia] resolved with.  The React state keeps a
    reference; the tracks themselves live in the world ([tracks]), so
    that every holder of the reference sees the same tracks. *)
Inductive StreamRef := UserMedia.

Inductive ReadyState := CONNECTING | OPEN | CLOSING | CLOSED.

Record WebSocket := { url : string; readyState : ReadyState }.

Record RTCPeerConnection := { pc_closed : bool }.

Definition Sdp := string.
Definition Candidate := string.

(** Messages the client writes to the signaling socket. *)
Inductive SignalMessage :=
| ready (role : string)
| offer (sdp : Sdp)
| answer (sdp : Sdp)
| ice_candidate (candidate : Candidate)
| hangup.

(** A parsed incoming frame: [data.type], [data.sdp], [data.candidate]. *)
Record Data :=
  { type : string; sdp : option Sdp; candidate : option Candidate }.

(** Calls that leave the component, in the order they are made.
    [send m] is a frame handed to an OPEN socket. *)
Inductive Call :=
| send (m : SignalMessage)
| ws_close
| pc_close
| track_stop (index : nat)
| navigate (delta : Z)
| toast (level : string) (message : string)
| setTimeout (ms : nat).

(** What the component gets from its hooks and from the build:
    [useAuth().user], [searchParams.get('session')],
    [process.env.REACT_APP_WS_URL], and whether the imported [toast]
    object has an [info] method (the toast library is not part of the
    sources). *)
Record Env :=
  { user : option User;
    sessionId : option string;
    REACT_APP_WS_URL : option string;
    toast_info_defined : bool }.

(** [useState] cells, as committed by the latest render. *)
Record ReactState :=
  { localStream : option StreamRef;
    remoteStream : bool;
    callStatus : string;
    isMuted : bool;
    isVideoOff : bool }.

Record World :=
  { env : Env;
    state : ReactState;
    (* useRef cells *)
    peerConnection : option RTCPeerConnection;
    signalingSocket : option WebSocket;
    (* the tracks of the getUserMedia stream *)
    tracks : list MediaStreamTrack;
    (* pending setTimeout callbacks (each is [() => createOffer()]) *)
    timers : list nat;
    calls : list Call }.

(** *** Field updates *)

Definition with_state (f : ReactState -> ReactState) (w : World) : World :=
  {| env := env w; state := f (state w);
     peerConnection := peerConnection w;
     signalingSocket := signalingSocket w;
     tracks := tracks w; timers := timers w; calls := calls w |}.

Definition with_peerConnection (pc : option RTCPeerConnection) (w : World)
  : World :=
  {| env := env w; state := state w;
     peerConnection := pc;
     signalingSocket := signalingSocket w;
     tracks := tracks w; timers := timers w; calls := calls w |}.

Definition with_signalingSocket (ws : option WebSocket) (w : World)
  : World :=
  {| env := env w; state := state w;
     peerConnection := peerConnection w;
     signalingSocket := ws;
     tracks := tracks w; timers := timers w; calls := calls w |}.

Definition with_tracks (f : list MediaStreamTrack -> list MediaStreamTrack)
    (w : World) : World :=
  {| env := env w; state := state w;
     peerConnection := peerConnection w;
     signalingSocket := signalingSocket w;
     tracks := f (tracks w); timers := timers w; calls := calls w |}.

Definition with_timers (f : list nat -> list nat) (w : World) : World :=
  {| env := env w; state := state w;
     peerConnection := peerConnection w;
     signalingSocket := signalingSocket w;
     tracks := tracks w; timers := f (timers w); calls := calls w |}.

Definition record (c : Call) (w : World) : World :=
  {| env := env w; state := state w;
     peerConnection := peerConnection w;
     signalingSocket := signalingSocket w;
     tracks := tracks w; timers := timers w; calls := calls w ++ [c] |}.

Definition JS := Eff World.

Definition call (c : Call) : JS unit := modify (record c).

(** The [useState] setters. *)
Definition setLocalStream (v : option StreamRef) : JS unit :=
  modify (with_state (fun s =>
    {| localStream := v; remoteStream := remoteStream s;
       callStatus := callStatus s; isMuted := isMuted s;
       isVideoOff := isVideoOff s |})).

Definition setRemoteStream (v : bool) : JS unit :=
  modify (with_state (fun s =>
    {| localStream := localStream s; remoteStream := v;
       callStatus := callStatus s; isMuted := isMuted s;
       isVideoOff := isVideoOff s |})).

Definition setCallStatus (v : string) : JS unit :=
  modify (with_state (fun s =>
    {| localStream := localStream s; remoteStream := remoteStream s;
       callStatus := v; isMuted := isMuted s;
       isVideoOff := isVideoOff s |})).

Definition setIsMuted (v : bool) : JS unit :=
  modify (with_state (fun s =>
    {| localStream := localStream s; remoteStream := remoteStream s;
       callStatus := callStatus s; isMuted := v;
       isVideoOff := isVideoOff s |})).

Definition setIsVideoOff (v : bool) : JS unit :=
  modify (with_state (fun s =>
    {| localStream := localStream s; remoteStream := remoteStream s;
       callStatus := callStatus s; isMuted := isMuted s;
       isVideoOff := v |})).

(** *** Render scopes

    The functions of the component are re-created by every render and
    close over the [useState] values of that render.  [initializeCall]
    runs from [useEffect(..., [])], so it and everything it registers
    (the socket and peer-connection handlers, and the functions those
    call) belong to the first render; the [onClick] handlers are
    re-bound at every render and belong to the latest one. *)
Record Scope :=
  { sc_localStream : option StreamRef;
    sc_isMuted : bool;
    sc_isVideoOff : bool }.

(** [useState(null)], [useState(false)], [useState(false)]. *)
Definition first_render : Scope :=
  {| sc_localStream := None; sc_isMuted := false; sc_isVideoOff := false |}.

Definition latest_render (w : World) : Scope :=
  {| sc_localStream := localStream (state w);
     sc_isMuted := isMuted (state w);
     sc_isVideoOff := isVideoOff (state w) |}.

(** [const role = user?.role === 'farmer' ? 'farmer' : 'vet';] *)
Definition role (e : Env) : string :=
  match user e with
  | Some u => if String.eqb (user_role u) "farmer" then "farmer" else "vet"
  | None => "vet"
  end.

(** [process.env.REACT_APP_WS_URL || 'ws://localhost:8000'] *)
Definition WS_URL (e : Env) : string :=
  match REACT_APP_WS_URL e with
  | Some s => if String.eqb s "" then "ws://localhost:8000" else s
  | None => "ws://localhost:8000"
  end.

(** A nullable string inside a template literal. *)
Definition template (s : option string) : string :=
  match s with Some s => s | None => "null" end.

(** *** Browser objects *)

(** [signalingSocket.current.send(JSON.stringify(m))]: a null ref and
    a CONNECTING socket throw, an OPEN socket transmits, a CLOSING or
    CLOSED socket discards the data. *)
Definition ws_send (m : SignalMessage) : JS unit :=
  ws ← gets signalingSocket;
  match ws with
  | None => throw TypeError
  | Some ws =>
      match readyState ws with
      | CONNECTING => throw InvalidStateError
      | OPEN => call (send m)
      | CLOSING | CLOSED => mret tt
      end
  end.

(** [socket.close()] *)
Definition close_socket (ws : WebSocket) : WebSocket :=
  {| url := url ws;
     readyState := match readyState ws with
                   | CONNECTING | OPEN => CLOSING
                   | rs => rs
                   end |}.

(** Positions, in [ts], of the tracks selected by [p], counted from
    [from]: [getTracks()] / [getAudioTracks()] / [getVideoTracks()]. *)
Fixpoint track_indices (p : MediaStreamTrack -> bool) (from : nat)
    (ts : list MediaStreamTrack) : list nat :=
  match ts with
  | [] => []
  | t :: ts' =>
      (if p t then [from] else []) ++ track_indices p (S from) ts'
  end.

Definition is_kind (k : TrackKind) (t : MediaStreamTrack) : bool :=
  match k, kind t with
  | audio, audio | video, video => true
  | _, _ => false
  end.

(** [track.stop()] *)
Definition stop (t : MediaStreamTrack) : MediaStreamTrack :=
  {| kind := kind t; enabled := enabled t; ended := true |}.

(** [track.enabled = !track.enabled] *)
Definition flip_enabled (t : MediaStreamTrack) : MediaStreamTrack :=
  {| kind := kind t; enabled := negb (enabled t); ended := ended t |}.

Definition update_track (f : MediaStreamTrack -> MediaStreamTrack)
    (i : nat) : JS unit :=
  modify (with_tracks (alter f i)).

(** [f] on the tracks selected by [p], the others as they are. *)
Definition on_selected (p : MediaStreamTrack -> bool)
    (f : MediaStreamTrack -> MediaStreamTrack) (t : MediaStreamTrack)
  : MediaStreamTrack :=
  if p t then f t else t.

(** *** The functions of the component *)

Definition cleanup (sc : Scope) : JS unit :=
  when (bool_decide (is_Some (sc_localStream sc)))
    (ts ← gets tracks;
     for_each (fun i => call (track_stop i);; update_track stop i)
              (track_indices (fun _ => true) 0 ts));;
  pc ← gets peerConnection;
  when (bool_decide (is_Some pc))
    (call pc_close;;
     modify (with_peerConnection (Some {| pc_closed := true |})));;
  ws ← gets signalingSocket;
  match ws with
  | Some ws =>
      call ws_close;;
      modify (with_signalingSocket (Some (close_socket ws)))
  | None => mret tt
  end.

(** [rtc] is what the awaited WebRTC calls of the body produce: the
    local description, or nothing when one of them rejects. *)
Definition createOffer (rtc : option Sdp) : JS unit :=
  try_catch
    (pc ← gets peerConnection;
     match pc with
     | None => throw TypeError
     | Some pc =>
         if pc_closed pc then throw InvalidStateError
         else match rtc with
              | None => throw Rejected
              | Some o => ws_send (offer o)
              end
     end)
    (fun _ => mret tt).

Definition handleOffer (remote : option Sdp) (rtc : option Sdp) : JS unit :=
  try_catch
    (pc ← gets peerConnection;
     match pc, remote with
     | None, _ | _, None => throw TypeError
     | Some pc, Some _ =>
         if pc_closed pc then throw InvalidStateError
         else match rtc with
              | None => throw Rejected
              | Some a => ws_send (answer a)
              end
     end)
    (fun _ => mret tt).

(** Both only feed the peer connection ([setRemoteDescription],
    [addIceCandidate]) inside a [try] whose [catch] logs; the state of
    the negotiation inside the peer connection is not part of the
    world, so neither leaves a trace in it. *)
Definition handleAnswer (remote : option Sdp) : JS unit := mret tt.
Definition handleIceCandidate (c : option Candidate) : JS unit := mret tt.

Definition toast_info (message : string) : JS unit :=
  e ← gets env;
  if toast_info_defined e then call (toast "info" message)
  else throw TypeError.

Definition handleRemoteHangup (sc : Scope) : JS unit :=
  toast_info "Remote user ended the call";;
  cleanup sc;;
  call (navigate (-1)).

Definition toggleMute (sc : Scope) : JS unit :=
  when (bool_decide (is_Some (sc_localStream sc)))
    (ts ← gets tracks;
     for_each (update_track flip_enabled)
              (track_indices (is_kind audio) 0 ts);;
     setIsMuted (negb (sc_isMuted sc))).

Definition toggleVideo (sc : Scope) : JS unit :=
  when (bool_decide (is_Some (sc_localStream sc)))
    (ts ← gets tracks;
     for_each (update_track flip_enabled)
              (track_indices (is_kind video) 0 ts);;
     setIsVideoOff (negb (sc_isVideoOff sc))).

Definition socket_open (w : World) : bool :=
  match signalingSocket w with
  | Some ws => match readyState ws with OPEN => true | _ => false end
  | None => false
  end.

Definition endCall (sc : Scope) : JS unit :=
  is_open ← gets socket_open;
  when is_open (ws_send hangup);;
  cleanup sc;;
  call (navigate (-1)).

(** *** Handlers registered by [initPeerConnection] *)

(** [event.candidate && signalingSocket.current?.readyState === OPEN] *)
Definition onicecandidate (c : option Candidate) : JS unit :=
  match c with
  | Some c =>
      is_open ← gets socket_open;
      when is_open (ws_send (ice_candidate c))
  | None => mret tt
  end.

Definition ontrack : JS unit :=
  setRemoteStream true;;
  setCallStatus "Connected".

Definition onconnectionstatechange (connectionState : string) : JS unit :=
  if String.eqb connectionState "connected" then setCallStatus "Connected"
  else if String.eqb connectionState "disconnected"
       then setCallStatus "Disconnected"
       else mret tt.

Definition initPeerConnection : JS unit :=
  modify (with_peerConnection (Some {| pc_closed := false |})).

(** *** Handlers registered by [connectSignaling] *)

Definition onopen : JS unit :=
  r ← gets (fun w => role (env w));
  ws_send (ready r);;
  when (String.eqb r "farmer")
    (call (setTimeout 500);;
     modify (with_timers (fun pending => pending ++ [500]))).

Definition onmessage (sc : Scope) (data : Data) (rtc : option Sdp)
  : JS unit :=
  r ← gets (fun w => role (env w));
  if String.eqb (type data) "ready" then
    when (String.eqb r "farmer") (createOffer rtc)
  else if String.eqb (type data) "offer" then handleOffer (sdp data) rtc
  else if String.eqb (type data) "answer" then handleAnswer (sdp data)
  else if String.eqb (type data) "ice-candidate"
       then handleIceCandidate (candidate data)
  else if String.eqb (type data) "hangup" then handleRemoteHangup sc
  else if String.eqb (type data) "peer-disconnected"
       then setCallStatus "Peer disconnected"
  else mret tt.

Definition onerror : JS unit :=
  call (toast "error" "Signaling connection error").

(** Only [console.log('Signaling disconnected')]. *)
Definition onclose : JS unit := mret tt.

Definition wsUrl (e : Env) (u : User) : string :=
  WS_URL e +:+ "/ws/signaling/" +:+ template (sessionId e) +:+ "/"
    +:+ id u +:+ "/" +:+ role e.

(** [user.id] throws on a null user. *)
Definition connectSignaling : JS unit :=
  e ← gets env;
  match user e with
  | None => throw TypeError
  | Some u =>
      modify (with_signalingSocket
                (Some {| url := wsUrl e u; readyState := CONNECTING |}))
  end.

(** [gum] is what [getUserMedia] resolves with, or nothing when it
    rejects. *)
Definition initializeCall (gum : option (list MediaStreamTrack)) : JS unit :=
  try_catch
    (match gum with
     | None => throw Rejected
     | Some stream =>
         modify (with_tracks (fun _ => stream));;
         setLocalStream (Some UserMedia);;
         initPeerConnection;;
         connectSignaling;;
         setCallStatus "Waiting for peer..."
     end)
    (fun _ =>
       call (toast "error" "Failed to access camera/microphone");;
       setCallStatus "Error").

(** *** The component as a reactive system *)

Inductive Event :=
| mount (gum : option (list MediaStreamTrack))
| unmount
| ws_open
| ws_message (data : Data) (rtc : option Sdp)
| ws_error
| ws_closed
| ice (c : option Candidate)
| track
| connection_state (s : string)
| timeout (rtc : option Sdp)
| click_endCall
| click_toggleMute
| click_toggleVideo.

Definition init (e : Env) : World :=
  {| env := e;
     state := {| localStream := None; remoteStream := false;
                 callStatus := "Connecting..."; isMuted := false;
                 isVideoOff := false |};
     peerConnection := None; signalingSocket := None;
     tracks := []; timers := []; calls := [] |}.

Definition set_readyState (rs : ReadyState) (w : World) : World :=
  match signalingSocket w with
  | Some ws =>
      with_signalingSocket (Some {| url := url ws; readyState := rs |}) w
  | None => w
  end.

(** One event, handled to completion.  Socket events need a socket and
    peer-connection events a peer connection (no handler is registered
    before); the browser moves [readyState] before it calls [onopen] and
    [onclose].  Effect callbacks run in the scope of the first render,
    click handlers in that of the latest. *)
Definition handle (ev : Event) (w : World) : World :=
  match ev with
  | mount gum => exec (initializeCall gum) w
  | unmount => exec (cleanup first_render) w
  | ws_open =>
      match signalingSocket w with
      | Some {| readyState := CONNECTING |} =>
          exec onopen (set_readyState OPEN w)
      | _ => w
      end
  | ws_message data rtc =>
      if bool_decide (is_Some (signalingSocket w))
      then exec (onmessage first_render data rtc) w else w
  | ws_error =>
      if bool_decide (is_Some (signalingSocket w)) then exec onerror w else w
  | ws_closed =>
      if bool_decide (is_Some (signalingSocket w))
      then exec onclose (set_readyState CLOSED w) else w
  | ice c =>
      if bool_decide (is_Some (peerConnection w))
      then exec (onicecandidate c) w else w
  | track =>
      if bool_decide (is_Some (peerConnection w)) then exec ontrack w else w
  | connection_state s =>
      if bool_decide (is_Some (peerConnection w))
      then exec (onconnectionstatechange s) w else w
  | timeout rtc =>
      match timers w with
      | _ :: _ => exec (createOffer rtc) (with_timers (drop 1) w)
      | [] => w
      end
  | click_endCall => exec (endCall (latest_render w)) w
  | click_toggleMute => exec (toggleMute (latest_render w)) w
  | click_toggleVideo => exec (toggleVideo (latest_render w)) w
  end.

Definition run (evs : list Event) (w : World) : World :=
  foldl (fun w ev => handle ev w) w evs.

(** *** The client that does not initiate *)

Definition is_offer (c : Call) : bool :=
  match c with send (offer _) => true | _ => false end.

(** The page of a user who is not the farmer, with no [createOffer]
    callback pending and no offer sent so far. *)
Definition idle (w : World) : Prop :=
  role (env w) <> "farmer"
  /\ timers w = []
  /\ Forall (fun c => is_offer c = false) (calls w).

Definition keeps_idle {A} (m : JS A) : Prop :=
  forall w, idle w -> idle (snd (m w)).

End VideoCall.

(** ** The dashboards *)
Module Dashboards.
Import Auth.

Inductive Json := JNull | JString (s : string).

(** A call of the REST client: [api.post(path, body)] and the like. *)
Record Request :=
  { method : string; path : string; body : gmap string Json }.

Inductive Action :=
| api (r : Request)
| navigate (to : string)
| toast (level : string) (message : string).

(** *** Farmer dashboard *)

Definition createSession (u : User) (reportId : string) : Request :=
  {| method := "POST";
     path := "/signaling/session/create";
     body := {[ "report_id" := JString reportId;
                "farmer_id" := JString (id u);
                "vet_id" := JNull ]} |}.

(** [response] is the [session_id] the server answers with, or nothing
    when the request fails.  A null user makes [user.id] throw inside
    the [try]. *)
Definition handleConnectVet (user : option User) (reportId : string)
    (response : Request -> option string) : list Action :=
  match user with
  | None => [toast "error" "Failed to connect. Please try again."]
  | Some u =>
      let request := createSession u reportId in
      match response request with
      | Some sessionId =>
          [api request;
           navigate ("/video-call?session=" +:+ sessionId
                       +:+ "&report=" +:+ reportId);
           toast "success" "Connecting to veterinarian..."]
      | None =>
          [api request; toast "error" "Failed to connect. Please try again."]
      end
  end.

(** *** Vet dashboard *)

Definition joinSession (u : User) (sessionId : string) : Request :=
  {| method := "PATCH";
     path := "/signaling/session/" +:+ sessionId +:+ "/join";
     body := {[ "vet_id" := JString (id u) ]} |}.

Definition joinCall (user : option User) (sessionId reportId : string)
    (response : Request -> bool) : list Action :=
  match user with
  | None => [toast "error" "Failed to join call"]
  | Some u =>
      let request := joinSession u sessionId in
      if response request then
        [api request;
         navigate ("/video-call?session=" +:+ sessionId
                     +:+ "&report=" +:+ reportId);
         toast "success" "Joining call..."]
      else [api request; toast "error" "Failed to join call"]
  end.

(** The requests among the actions of a handler. *)
Definition requests (acts : list Action) : list Request :=
  omap (fun a => match a with api r => Some r | _ => None end) acts.

(** The notification socket of the vet dashboard: the sockets opened so
    far (by URL, oldest first), the pending [setTimeout] callbacks
    (each is [connectWebSocket]) and every delay handed to
    [setTimeout] so far. *)
Record Notifications :=
  { sockets : list string;
    pending : list nat;
    scheduled : list nat }.

Definition connectWebSocket (WS_URL : string) (u : User)
    (n : Notifications) : Notifications :=
  {| sockets := sockets n ++ [WS_URL +:+ "/ws/" +:+ id u];
     pending := pending n;
     scheduled := scheduled n |}.

(** [ws.onclose]: [setTimeout(connectWebSocket, 3000)]. *)
Definition ws_onclose (n : Notifications) : Notifications :=
  {| sockets := sockets n;
     pending := pending n ++ [3000];
     scheduled := scheduled n ++ [3000] |}.

Inductive Event := mounted | socket_closed | timer_fired.

Definition handle (WS_URL : string) (u : User) (ev : Event)
    (n : Notifications) : Notifications :=
  match ev with
  | mounted => connectWebSocket WS_URL u n
  | socket_closed =>
      match sockets n with
      | [] => n
      | _ :: _ => ws_onclose n
      end
  | timer_fired =>
      match pending n with
      | [] => n
      | _ :: rest =>
          connectWebSocket WS_URL u
            {| sockets := sockets n; pending := rest;
               scheduled := scheduled n |}
      end
  end.

Definition run (WS_URL : string) (u : User) (evs : list Event)
    (n : Notifications) : Notifications :=
  foldl (fun n ev => handle WS_URL u ev n) n evs.

Definition start : Notifications :=
  {| sockets := []; pending := []; scheduled := [] |}.

(** The least every exponential back-off schedule satisfies: each
    delay is longer than the one before it. *)
Definition delays_grow (delays : list nat) : Prop :=
  forall i d d',
    delays !! i = Some d -> delays !! S i = Some d' -> (d < d')%nat.

End Dashboards.

(** ** The call-session core (server side) *)
Module SessionCore.

(** Modelled from the spec: the three states of a [CallSession]. *)
Inductive State := Created | Active | Ended.

(** Modelled from the spec: the two roles of a session. *)
Inductive Role := initiator | counterpart.

Global Instance Role_eq_dec : EqDecision Role.
Proof. solve_decision. Defined.

Global Instance Role_countable : Countable Role.
Proof.
  refine (inj_countable' (fun r => match r with
                                   | initiator => false
                                   | counterpart => true
                                   end)
                         (fun b => if b then counterpart else initiator) _).
  intros []; reflexivity.
Defined.

Definition other (r : Role) : Role :=
  match r with initiator => counterpart | counterpart => initiator end.

Definition Channel := nat.
Definition Time := nat.

(** Modelled from the spec: the [CallSession] record of the data model
    (the server's session store is not part of the sources). *)
Record CallSession :=
  { id : nat;
    reportId : string;
    initiatorId : string;
    counterpartId : option string;
    state : State;
    createdAt : Time;
    endedAt : option Time }.

(** Modelled from the spec: the tagged variant [SignalMessage]; the
    payloads are opaque. *)
Inductive SignalMessage :=
| Ready
| Offer (payload : string)
| Answer (payload : string)
| IceCandidate (payload : string)
| Hangup.

(** Modelled from the spec: what the core hands to a channel, that is
    a relayed message, the [PeerDisconnected] notice, the terminal
    notice of [end], or the forced close of a replaced channel. *)
Inductive Notice :=
| Signal (m : SignalMessage)
| PeerDisconnected
| Terminal
| ForcedClose.

(** Modelled from the spec: the typed errors of the core. *)
Inductive Error := NotFound | AlreadyJoined | SessionEnded.

Inductive Result (A : Type) :=
| Ok (a : A)
| Err (e : Error).
Arguments Ok {A} a.
Arguments Err {A} e.

(** Modelled from the spec: the shared state of the core, that is the
    Session Store, the Presence Registry, the deferred actions of the
    Lifecycle Coordinator (the deadline of each running grace window
    and abandoned-session timeout) and the writes to channels. *)
Record Core :=
  { store : gmap nat CallSession;
    registry : gmap (nat * Role) Channel;
    grace : gmap (nat * Role) Time;
    abandon : gmap nat Time;
    written : list (Channel * Notice) }.

(** Modelled from the spec: the two configurable waits. *)
Record Config := { grace_window : nat; abandon_timeout : nat }.

Definition empty : Core :=
  {| store := ∅; registry := ∅; grace := ∅; abandon := ∅; written := [] |}.

Definition with_store (f : gmap nat CallSession -> gmap nat CallSession)
    (c : Core) : Core :=
  {| store := f (store c); registry := registry c; grace := grace c;
     abandon := abandon c; written := written c |}.

Definition with_registry
    (f : gmap (nat * Role) Channel -> gmap (nat * Role) Channel)
    (c : Core) : Core :=
  {| store := store c; registry := f (registry c); grace := grace c;
     abandon := abandon c; written := written c |}.

Definition with_grace (f : gmap (nat * Role) Time -> gmap (nat * Role) Time)
    (c : Core) : Core :=
  {| store := store c; registry := registry c; grace := f (grace c);
     abandon := abandon c; written := written c |}.

Definition with_abandon (f : gmap nat Time -> gmap nat Time) (c : Core)
  : Core :=
  {| store := store c; registry := registry c; grace := grace c;
     abandon := f (abandon c); written := written c |}.

Definition write (ch : Channel) (n : Notice) (c : Core) : Core :=
  {| store := store c; registry := registry c; grace := grace c;
     abandon := abandon c; written := written c ++ [(ch, n)] |}.

Definition set_state (st : State) (s : CallSession) : CallSession :=
  {| id := id s; reportId := reportId s; initiatorId := initiatorId s;
     counterpartId := counterpartId s; state := st;
     createdAt := createdAt s; endedAt := endedAt s |}.

Definition set_counterpart (who : string) (s : CallSession) : CallSession :=
  {| id := id s; reportId := reportId s; initiatorId := initiatorId s;
     counterpartId := Some who; state := state s;
     createdAt := createdAt s; endedAt := endedAt s |}.

Definition terminate (now : Time) (s : CallSession) : CallSession :=
  {| id := id s; reportId := reportId s; initiatorId := initiatorId s;
     counterpartId := counterpartId s; state := Ended;
     createdAt := createdAt s; endedAt := Some now |}.

(** *** Presence Registry *)

(** Modelled from the spec: [attach] closes a prior channel of the same
    (session, role) before it registers the new one. *)
Definition attach (sid : nat) (r : Role) (ch : Channel) (c : Core) : Core :=
  let c := match registry c !! (sid, r) with
           | Some old => write old ForcedClose c
           | None => c
           end in
  with_registry (insert (sid, r) ch) c.

(** Modelled from the spec: [detach] removes the entry, if any. *)
Definition detach (sid : nat) (r : Role) (c : Core) : Core :=
  with_registry (delete (sid, r)) c.

(** Modelled from the spec: the channel of the other role. *)
Definition peerOf (sid : nat) (r : Role) (c : Core) : option Channel :=
  registry c !! (sid, other r).

(** Modelled from the spec: both roles hold a connection. *)
Definition bothPresent (sid : nat) (c : Core) : bool :=
  bool_decide (is_Some (registry c !! (sid, initiator)))
  && bool_decide (is_Some (registry c !! (sid, counterpart))).

(** *** Session Store *)

(** Modelled from the spec: [create] allocates a fresh id, state
    [Created], and always succeeds; the abandoned-session timeout
    starts at creation. *)
Definition create (cfg : Config) (now : Time) (report who : string)
    (c : Core) : CallSession * Core :=
  let sid := fresh (dom (store c)) in
  let s := {| id := sid; reportId := report; initiatorId := who;
              counterpartId := None; state := Created;
              createdAt := now; endedAt := None |} in
  (s, with_abandon (insert sid (now + abandon_timeout cfg))
        (with_store (insert sid s) c)).

(** Modelled from the spec: [get] reads the record of a session. *)
Definition get (sid : nat) (c : Core) : Result CallSession :=
  match store c !! sid with
  | Some s => Ok s
  | None => Err NotFound
  end.

(** Modelled from the spec: [join] only records the identity of the
    counterpart (and stops the abandoned-session timeout); it fails on
    an absent session, on a terminal one, and on one joined by a
    different identity. *)
Definition join (sid : nat) (who : string) (c : Core)
  : Result CallSession * Core :=
  match store c !! sid with
  | None => (Err NotFound, c)
  | Some s =>
      match state s with
      | Ended => (Err SessionEnded, c)
      | _ =>
          match counterpartId s with
          | Some prior =>
              if String.eqb prior who then (Ok s, c)
              else (Err AlreadyJoined, c)
          | None =>
              let s' := set_counterpart who s in
              (Ok s', with_abandon (delete sid)
                        (with_store (insert sid s') c))
          end
      end
  end.

(** Modelled from the spec: the terminal notice to a peer that is
    still connected. *)
Definition notify_terminal (sid : nat) (r : Role) (c : Core) : Core :=
  match registry c !! (sid, r) with
  | Some ch => write ch Terminal c
  | None => c
  end.

(** Modelled from the spec: [end] moves the session to [Ended], records
    [endedAt], detaches both registry entries and writes a terminal
    notice to every peer still connected; on a session that is already
    [Ended] it changes nothing and returns the current record. *)
Definition end_ (now : Time) (sid : nat) (c : Core)
  : Result CallSession * Core :=
  match store c !! sid with
  | None => (Err NotFound, c)
  | Some s =>
      match state s with
      | Ended => (Ok s, c)
      | _ =>
          let s' := terminate now s in
          let c := notify_terminal sid initiator c in
          let c := notify_terminal sid counterpart c in
          let c := detach sid initiator (detach sid counterpart c) in
          let c := with_grace (delete (sid, initiator)) c in
          let c := with_grace (delete (sid, counterpart)) c in
          let c := with_abandon (delete sid) c in
          (Ok s', with_store (insert sid s') c)
      end
  end.

(** *** Session Lifecycle Coordinator and Signaling Relay *)

Definition live (s : CallSession) : bool :=
  match state s with Ended => false | _ => true end.

(** Modelled from the spec: [onConnect] rejects an absent or a terminal
    session; otherwise it attaches the connection (which also stops a
    running grace window of that role) and, once both roles are
    present, makes the session [Active]. *)
Definition onConnect (sid : nat) (who : string) (r : Role) (ch : Channel)
    (c : Core) : Result CallSession * Core :=
  match store c !! sid with
  | None => (Err NotFound, c)
  | Some s =>
      if live s then
        let c := with_grace (delete (sid, r)) (attach sid r ch c) in
        if bothPresent sid c then
          let s' := set_state Active s in
          (Ok s', with_store (insert sid s') c)
        else (Ok s, c)
      else (Err SessionEnded, c)
  end.

(** Modelled from the spec: [onDisconnect] detaches the connection,
    tells the remaining peer, and starts the grace window instead of
    ending the session. *)
Definition onDisconnect (cfg : Config) (now : Time) (sid : nat) (r : Role)
    (c : Core) : Core :=
  let c := detach sid r c in
  let c := match peerOf sid r c with
           | Some ch => write ch PeerDisconnected c
           | None => c
           end in
  match store c !! sid with
  | Some s =>
      if live s
      then with_grace (insert (sid, r) (now + grace_window cfg)) c
      else c
  | None => c
  end.

(** Modelled from the spec: the deferred action of a grace window; it
    ends the session when the window has elapsed and was not stopped
    by a reconnect. *)
Definition graceExpired (now : Time) (sid : nat) (r : Role) (c : Core)
  : Core :=
  match grace c !! (sid, r) with
  | Some deadline =>
      if bool_decide (deadline <= now)%nat then snd (end_ now sid c) else c
  | None => c
  end.

(** Modelled from the spec: the deferred action of the
    abandoned-session timeout; it ends a session that is still
    [Created] when the timeout has elapsed and no join stopped it. *)
Definition abandonExpired (now : Time) (sid : nat) (c : Core) : Core :=
  match abandon c !! sid, store c !! sid with
  | Some deadline, Some s =>
      match state s with
      | Created =>
          if bool_decide (deadline <= now)%nat
          then snd (end_ now sid c) else c
      | _ => c
      end
  | _, _ => c
  end.

(** Modelled from the spec: [relay] forwards a message to the peer when
    it is present and drops it otherwise; a [Hangup] then ends the
    session; a session without a record or in [Ended] is an error. *)
Definition relay (now : Time) (sid : nat) (from : Role) (m : SignalMessage)
    (c : Core) : Result unit * Core :=
  match store c !! sid with
  | None => (Err NotFound, c)
  | Some s =>
      if live s then
        let c := match peerOf sid from c with
                 | Some ch => write ch (Signal m) c
                 | None => c
                 end in
        match m with
        | Hangup => (Ok tt, snd (end_ now sid c))
        | _ => (Ok tt, c)
        end
      else (Err SessionEnded, c)
  end.

(** Modelled from the spec: the operations of the core, each stamped
    with the time of the (virtual) clock where it needs one. *)
Inductive Op :=
| op_create (now : Time) (report who : string)
| op_join (sid : nat) (who : string)
| op_connect (sid : nat) (who : string) (r : Role) (ch : Channel)
| op_disconnect (now : Time) (sid : nat) (r : Role)
| op_relay (now : Time) (sid : nat) (from : Role) (m : SignalMessage)
| op_end (now : Time) (sid : nat)
| op_grace_expired (now : Time) (sid : nat) (r : Role)
| op_abandon_expired (now : Time) (sid : nat).

Definition step (cfg : Config) (op : Op) (c : Core) : Core :=
  match op with
  | op_create now report who => snd (create cfg now report who c)
  | op_join sid who => snd (join sid who c)
  | op_connect sid who r ch => snd (onConnect sid who r ch c)
  | op_disconnect now sid r => onDisconnect cfg now sid r c
  | op_relay now sid from m => snd (relay now sid from m c)
  | op_end now sid => snd (end_ now sid c)
  | op_grace_expired now sid r => graceExpired now sid r c
  | op_abandon_expired now sid => abandonExpired now sid c
  end.

Definition run (cfg : Config) (ops : list Op) (c : Core) : Core :=
  foldl (fun c op => step cfg op c) c ops.

(** Modelled from the spec: the order [Created], [Active], [Ended] of
    the states. *)
Definition rank (st : State) : nat :=
  match st with Created => 0 | Active => 1 | Ended => 2 end.

(** [s'] is the record [s] at the same or a later state. *)
Definition advanced (s s' : CallSession) : Prop :=
  (rank (state s) <= rank (state s'))%nat
  /\ id s' = id s /\ reportId s' = reportId s
  /\ initiatorId s' = initiatorId s /\ createdAt s' = createdAt s.

(** Every session of [c] is still in [c'], at the same or a later
    state. *)
Definition keeps_sessions (c c' : Core) : Prop :=
  forall sid s, store c !! sid = Some s ->
                exists s', store c' !! sid = Some s' /\ advanced s s'.

End SessionCore.

(** ** Concrete calls, used to exercise the definitions *)
Module Samples.
Import Auth VideoCall.

Definition farmerA : User := {| id := "farmerA"; user_role := "farmer" |}.
Definition vetB : User := {| id := "vetB"; user_role := "vet" |}.

Definition page (u : User) : Env :=
  {| user := Some u; sessionId := Some "s1";
     REACT_APP_WS_URL := None; toast_info_defined := true |}.

(** A microphone and a camera, both live and enabled. *)
Definition camera : list MediaStreamTrack :=
  [ {| kind := audio; enabled := true; ended := false |};
    {| kind := video; enabled := true; ended := false |} ].

(** The page after [getUserMedia] resolved and the socket opened. *)
Definition in_call (u : User) : World :=
  run [mount (Some camera); ws_open] (init (page u)).

Definition frame (t : string) : Data :=
  {| type := t; sdp := None; candidate := None |}.

End Samples.

(** ** A concrete session, used to exercise the core *)
Module SessionSamples.
Import SessionCore.

Definition cfg : Config := {| grace_window := 30; abandon_timeout := 60 |}.

(** farmerA creates a session for report r1, vetB joins, both connect. *)
Definition setup : list Op :=
  [ op_create 0 "r1" "farmerA";
    op_join 0 "vetB";
    op_connect 0 "farmerA" initiator 7;
    op_connect 0 "vetB" counterpart 8 ].

(** The vet hangs up; later attempts to reconnect, to end again and
    the timers of the session follow. *)
Definition teardown : list Op :=
  [ op_relay 9 0 counterpart Hangup;
    op_connect 0 "farmerA" initiator 9;
    op_join 0 "vetC";
    op_end 12 0;
    op_grace_expired 50 0 initiator;
    op_abandon_expired 70 0 ].

End SessionSamples.

(** ** The call page, seen from the signaling channel *)
Module Protocol.
Import Js Auth VideoCall.

(** The frames among the calls, oldest first. *)
Definition frames (cs : list Call) : list SignalMessage :=
  omap (fun c => match c with send m => Some m | _ => None end) cs.

Definition is_send (c : Call) : bool :=
  match c with send _ => true | _ => false end.

(** No socket, or one that [close()] was called on or that closed. *)
Definition socket_gone (w : World) : bool :=
  match signalingSocket w with
  | None => true
  | Some ws =>
      match readyState ws with
      | CLOSING | CLOSED => true
      | CONNECTING | OPEN => false
      end
  end.

Definition is_mount (ev : Event) : bool :=
  match ev with mount _ => true | _ => false end.

Definition is_toggle (ev : Event) : bool :=
  match ev with click_toggleMute | click_toggleVideo => true | _ => false end.

(** The frame an event can make the page write, if any: the [send]
    sites of [onopen], [createOffer], [handleOffer], [onicecandidate]
    and [endCall]. *)
Definition expected (ev : Event) (w : World) : option SignalMessage :=
  match ev with
  | ws_open => Some (ready (role (env w)))
  | timeout (Some o) => Some (offer o)
  | ws_message data (Some o) =>
      if String.eqb (type data) "ready" then Some (offer o)
      else if String.eqb (type data) "offer" then Some (answer o)
      else None
  | ice (Some c) => Some (ice_candidate c)
  | click_endCall => Some hangup
  | _ => None
  end.

(** A frame as the peer's [onmessage] parses it: the objects given to
    [JSON.stringify] at the [send] sites. *)
Definition wire (m : SignalMessage) : Data :=
  match m with
  | ready _ => {| type := "ready"; sdp := None; candidate := None |}
  | offer o => {| type := "offer"; sdp := Some o; candidate := None |}
  | answer a => {| type := "answer"; sdp := Some a; candidate := None |}
  | ice_candidate c =>
      {| type := "ice-candidate"; sdp := None; candidate := Some c |}
  | hangup => {| type := "hangup"; sdp := None; candidate := None |}
  end.

(** A page in a call: socket OPEN, peer connection not closed. *)
Definition connected (w : World) : Prop :=
  socket_open w = true
  /\ peerConnection w = Some {| pc_closed := false |}.

(** The two buttons show what the tracks do: an audio track is enabled
    exactly when [isMuted] is false, a video track exactly when
    [isVideoOff] is false. *)
Definition shown_off (w : World) (t : MediaStreamTrack) : bool :=
  match kind t with
  | audio => isMuted (state w)
  | video => isVideoOff (state w)
  end.

Definition synced (w : World) : Prop :=
  Forall (fun t => enabled t = negb (shown_off w t)) (tracks w).

(** Before [getUserMedia] has resolved. *)
Definition unstarted (w : World) : Prop :=
  localStream (state w) = None
  /\ isMuted (state w) = false
  /\ isVideoOff (state w) = false
  /\ tracks w = [].

(** A socket is only there together with a peer connection, the local
    stream and a signed-in user. *)
Definition equipped (w : World) : Prop :=
  is_Some (signalingSocket w) ->
  is_Some (peerConnection w)
  /\ localStream (state w) = Some UserMedia
  /\ is_Some (user (env w)).

Definition preserves {A} (I : World -> Prop) (m : JS A) : Prop :=
  forall w, I w -> I (snd (m w)).

(** [I] survives every elementary step the handlers other than
    [initializeCall] and the two toggles are made of. *)
Record closed (I : World -> Prop) : Prop :=
  { closed_state :
      forall f w,
        (forall s, localStream (f s) = localStream s
                   /\ isMuted (f s) = isMuted s
                   /\ isVideoOff (f s) = isVideoOff s) ->
        I w -> I (with_state f w);
    closed_stop : forall i w, I w -> I (with_tracks (alter stop i) w);
    closed_pc_close :
      forall w, is_Some (peerConnection w) -> I w ->
                I (with_peerConnection (Some {| pc_closed := true |}) w);
    closed_ws_close :
      forall ws w, signalingSocket w = Some ws -> I w ->
                   I (with_signalingSocket (Some (close_socket ws)) w);
    closed_opened :
      forall ws w, signalingSocket w = Some ws ->
                   readyState ws = CONNECTING -> I w ->
                   I (set_readyState OPEN w);
    closed_closed : forall w, I w -> I (set_readyState CLOSED w);
    closed_timers : forall f w, I w -> I (with_timers f w);
    closed_call : forall c w, is_send c = false -> I w -> I (record c w);
    closed_send :
      forall m w, socket_open w = true -> I w -> I (record (send m) w) }.

(** [I] survives the elementary steps of the two toggles as well. *)
Record closed_toggle (I : World -> Prop) : Prop :=
  { closed_flip : forall i w, I w -> I (with_tracks (alter flip_enabled i) w);
    closed_flags :
      forall f w,
        (forall s, localStream (f s) = localStream s) ->
        I w -> I (with_state f w) }.

End Protocol.

(** ** The routes of the application *)
Module Routing.
Import Auth.

Inductive Page :=
| LoginPage
| SignupPage
| FarmerDashboardPage
| VetDashboardPage
| AdminDashboardPage
| VideoCallPage
| UnauthorizedPage.

(** What a route element renders. *)
Inductive Element :=
| Spinner
| Navigate (to : string)
| Show (page : Page)
| Blank.

(** [allowedRoles.includes(user.role)] *)
Definition includes (roles : list string) (r : string) : bool :=
  existsb (String.eqb r) roles.

(** [allowedRoles] is absent on the video-call route. *)
Definition ProtectedRoute (loading : bool) (user : option User)
    (allowedRoles : option (list string)) (children : Element) : Element :=
  if loading then Spinner
  else match user with
       | None => Navigate "/login"
       | Some u =>
           match allowedRoles with
           | Some roles =>
               if negb (includes roles (user_role u))
               then Navigate "/unauthorized"
               else children
           | None => children
           end
       end.

(** The [<Route>] entries of [App], in order. *)
Inductive Route :=
| login | signup | farmer | vet | admin | video_call | unauthorized | root.

Definition path (r : Route) : string :=
  match r with
  | login => "/login"
  | signup => "/signup"
  | farmer => "/farmer"
  | vet => "/vet"
  | admin => "/admin"
  | video_call => "/video-call"
  | unauthorized => "/unauthorized"
  | root => "/"
  end.



Definition element (r : Route) (loading : bool) (user : option User)
  : Element :=
  match r with
  | login => Show LoginPage
  | signup => Show SignupPage
  | farmer =>
      ProtectedRoute loading user (Some ["farmer"]) (Show FarmerDashboardPage)
  | vet => ProtectedRoute loading user (Some ["vet"]) (Show VetDashboardPage)
  | admin =>
      ProtectedRoute loading user (Some ["admin"]) (Show AdminDashboardPage)
  | video_call => ProtectedRoute loading user None (Show VideoCallPage)
  | unauthorized => Show UnauthorizedPage
  | root => Navigate "/login"
  end.

(** The role a dashboard is for; the other pages are for nobody in
    particular. *)
Definition dashboard_of (p : Page) : option string :=
  match p with
  | FarmerDashboardPage => Some "farmer"
  | VetDashboardPage => Some "vet"
  | AdminDashboardPage => Some "admin"
  | _ => None
  end.

Definition needs_sign_in (p : Page) : bool :=
  match p with
  | FarmerDashboardPage | VetDashboardPage | AdminDashboardPage
  | VideoCallPage => true
  | _ => false
  end.

End Routing.

(** ** The case form of the vet dashboard *)
Module VetCases.
Import Dashboards.

Record Filters := { status : string; priority : string }.

(** [response.data] of [GET /reports/<id>], as far as the form reads it;
    an absent or null field is [None]. *)
Record Prediction := { disease_label : option string }.

Record Report :=
  { id : string;
    vet_notes : option string;
    data_diagnosis : option string;
    data_treatment : option string;
    ai_prediction : option Prediction }.

(** The [useState] cells of the form. *)
Record Form :=
  { selectedReport : option Report;
    vetNotes : string;
    diagnosis : string;
    treatment : string }.

Inductive Effect :=
| get (path : string) (params : gmap string string)
| patch (path : string) (body : gmap string Json)
| toast (level : string) (message : string).

(** [a || b] on nullable strings: null, undefined and [''] are falsy. *)
Definition or_else (a b : option string) : option string :=
  match a with
  | Some s => if String.eqb s "" then b else a
  | None => b
  end.

(** [a || ''] *)
Definition or_empty (a : option string) : string :=
  match or_else a (Some "") with Some s => s | None => "" end.

(** The [params] object of [loadReports]. *)
Definition loadReports_params (f : Filters) : gmap string string :=
  let params := ∅ in
  let params :=
    if String.eqb (status f) "" then params
    else <["status_filter" := status f]> params in
  if String.eqb (priority f) "" then params
  else <["priority_filter" := priority f]> params.

Definition loadReports (f : Filters) (loaded : bool) : list Effect :=
  get "/reports/" (loadReports_params f)
  :: (if loaded then [] else [toast "error" "Failed to load cases"]).

(** [response] is [response.data], or nothing when the request fails. *)
Definition handleSelectReport (reportId : string) (response : option Report)
    (f : Form) : list Effect * Form :=
  match response with
  | Some data =>
      ([get ("/reports/" +:+ reportId) ∅],
       {| selectedReport := Some data;
          vetNotes := or_empty (vet_notes data);
          diagnosis :=
            or_empty (or_else (data_diagnosis data)
                        (ai_prediction data ≫= disease_label));
          treatment := or_empty (data_treatment data) |})
  | None =>
      ([get ("/reports/" +:+ reportId) ∅;
        toast "error" "Failed to load report details"], f)
  end.

Definition deselect (f : Form) : Form :=
  {| selectedReport := None; vetNotes := vetNotes f;
     diagnosis := diagnosis f; treatment := treatment f |}.

Definition update_body (f : Form) : gmap string Json :=
  {[ "status" := JString "in_progress";
     "vet_notes" := JString (vetNotes f);
     "diagnosis" := JString (diagnosis f);
     "treatment" := JString (treatment f);
     "final_disease_label" := JString (diagnosis f) ]}.

Definition close_body (f : Form) : gmap string Json :=
  {[ "status" := JString "completed";
     "vet_notes" := JString (vetNotes f);
     "diagnosis" := JString (diagnosis f);
     "treatment" := JString (treatment f);
     "prescription" :=
       JString ("Prescription for " +:+ diagnosis f +:+ ": " +:+ treatment f);
     "final_disease_label" := JString (diagnosis f) ]}.

(** [saved] tells whether the PATCH succeeds, [loaded] whether the
    reload of the queue does. *)
Definition handleUpdateReport (filters : Filters) (saved loaded : bool)
    (f : Form) : list Effect * Form :=
  match selectedReport f with
  | None => ([], f)
  | Some r =>
      let request := patch ("/reports/" +:+ id r) (update_body f) in
      if saved then
        (request :: toast "success" "Report updated successfully"
           :: loadReports filters loaded,
         deselect f)
      else ([request; toast "error" "Failed to update report"], f)
  end.

Definition handleCloseCase (filters : Filters) (saved loaded : bool)
    (f : Form) : list Effect * Form :=
  match selectedReport f with
  | None => ([], f)
  | Some r =>
      let request := patch ("/reports/" +:+ id r) (close_body f) in
      if saved then
        (request :: toast "success" "Case closed successfully"
           :: loadReports filters loaded,
         deselect f)
      else ([request; toast "error" "Failed to close case"], f)
  end.

(** The PATCH requests among the effects. *)
Definition patches (effs : list Effect) : list (string * gmap string Json) :=
  omap (fun e => match e with patch p b => Some (p, b) | _ => None end) effs.

End VetCases.

(** ** The report form of the farmer dashboard *)
Module FarmerForm.

(** A selected [File], by name. *)
Definition File := string.

Record ReportForm :=
  { showReportForm : bool;
    symptomText : string;
    images : list File;
    cropType : string }.

Inductive FormValue := text (s : string) | file (f : File).

(** A [FormData]: its entries in the order they were appended. *)
Definition FormData := list (string * FormValue).

Inductive Effect :=
| post (path : string) (data : FormData) (content_type : string)
| get (path : string)
| toast (level : string) (message : string).

(** [formData.getAll(key)] *)
Definition getAll (key : string) (fd : FormData) : list FormValue :=
  omap (fun kv => if String.eqb (fst kv) key then Some (snd kv) else None) fd.

(** The [FormData] built by [handleCreateReport]. *)
Definition formData (f : ReportForm) : FormData :=
  [("text_symptoms", text (symptomText f)); ("crop_type", text (cropType f))]
  ++ map (fun image => ("images", file image)) (images f).

(** [setImages(Array.from(e.target.files))] *)
Definition handleImageChange (files : list File) (f : ReportForm)
  : ReportForm :=
  {| showReportForm := showReportForm f; symptomText := symptomText f;
     images := files; cropType := cropType f |}.

(** [created] tells whether the POST succeeds. *)
Definition handleCreateReport (created : bool) (f : ReportForm)
  : list Effect * ReportForm :=
  let request := post "/reports/" (formData f) "multipart/form-data" in
  if created then
    ([request; toast "success" "Report created successfully!";
      get "/reports/"],
     {| showReportForm := false; symptomText := ""; images := [];
        cropType := "" |})
  else ([request; toast "error" "Failed to create report"], f).

End FarmerForm.

(** ** The notification socket of the vet dashboard and its effect *)
Module VetSocket.
Import Auth Dashboards.

(** The sockets are numbered in the order [connectWebSocket] made them.
    [closed_by_page] lists the sockets [close()] was called on;
    [wsConnection] is the [useState] cell; [cleanup] is the cleanup
    function of the effect run last, given by the [wsConnection] it
    closed over (that of the render the effect belongs to), and is
    absent before the first effect and after unmount. *)
Record Page :=
  { net : Notifications;
    closed_by_page : list nat;
    wsConnection : option nat;
    cleanup : option (option nat) }.

Definition start : Page :=
  {| net := Dashboards.start; closed_by_page := [];
     wsConnection := None; cleanup := None |}.

(** [connectWebSocket] with its [setWsConnection(ws)]. *)
Definition connect (WS_URL : string) (u : User) (p : Page) : Page :=
  {| net := connectWebSocket WS_URL u (net p);
     closed_by_page := closed_by_page p;
     wsConnection := Some (length (sockets (net p)));
     cleanup := cleanup p |}.

(** [if (wsConnection) wsConnection.close()] of the registered cleanup. *)
Definition run_cleanup (p : Page) : Page :=
  match cleanup p with
  | Some (Some i) =>
      {| net := net p; closed_by_page := closed_by_page p ++ [i];
         wsConnection := wsConnection p; cleanup := cleanup p |}
  | _ => p
  end.

Inductive Event :=
| effect            (* mount, or a render with changed [filters] *)
| unmount
| close_event (i : nat)   (* the [close] event of socket [i] *)
| timer.

Definition handle (WS_URL : string) (u : User) (ev : Event) (p : Page)
  : Page :=
  match ev with
  | effect =>
      let captured := wsConnection p in
      let p := connect WS_URL u (run_cleanup p) in
      {| net := net p; closed_by_page := closed_by_page p;
         wsConnection := wsConnection p; cleanup := Some captured |}
  | unmount =>
      let p := run_cleanup p in
      {| net := net p; closed_by_page := closed_by_page p;
         wsConnection := wsConnection p; cleanup := None |}
  | close_event i =>
      if bool_decide (i < length (sockets (net p)))%nat then
        {| net := ws_onclose (net p); closed_by_page := closed_by_page p;
           wsConnection := wsConnection p; cleanup := cleanup p |}
      else p
  | timer =>
      match pending (net p) with
      | [] => p
      | _ :: rest =>
          connect WS_URL u
            {| net := {| sockets := sockets (net p); pending := rest;
                         scheduled := scheduled (net p) |};
               closed_by_page := closed_by_page p;
               wsConnection := wsConnection p; cleanup := cleanup p |}
      end
  end.

Definition run (WS_URL : string) (u : User) (evs : list Event) (p : Page)
  : Page :=
  foldl (fun p ev => handle WS_URL u ev p) p evs.

Definition is_effect (ev : Event) : bool :=
  match ev with effect | unmount => true | _ => false end.

(** Every socket the page knows of has been made. *)
Definition well_numbered (p : Page) : Prop :=
  let n := length (sockets (net p)) in
  Forall (fun i => (i < n)%nat) (closed_by_page p)
  /\ (forall i, wsConnection p = Some i -> (i < n)%nat)
  /\ (forall i, cleanup p = Some (Some i) -> (i < n)%nat).

End VetSocket.

(** ** Counting the mounts of the vet dashboard *)
Module Reconnects.
Import Dashboards.



End Reconnects.

(** ** Counting offers *)
Module Offers.
Import VideoCall Protocol.

Definition is_offer_frame (m : SignalMessage) : bool :=
  match m with offer _ => true | _ => false end.

(** The offers among the frames written so far. *)
Definition offers (w : World) : nat :=
  length (List.filter is_offer_frame (frames (calls w))).

(** The events that lead to [createOffer]: the socket opening (which
    sets the timer) and a ['ready'] frame. *)
Definition chance (ev : Event) : nat :=
  match ev with
  | ws_open => 1
  | ws_message data _ => if String.eqb (type data) "ready" then 1 else 0
  | _ => 0
  end.

Fixpoint chances (evs : list Event) : nat :=
  match evs with
  | [] => 0
  | ev :: evs' => chance ev + chances evs'
  end.

End Offers.

(** * Theorems *)

Import Js Auth.

(** Unfolding of the monad, shared by the proofs below. *)
Ltac js_simpl :=
  repeat (cbv beta iota delta
            [mbind mret eff_mbind eff_mret eff_bind eff_ret throw try_catch
             gets modify when exec VideoCall.call VideoCall.JS] in *;
          cbn [fst snd] in *).

Section VideoCallFacts.
Import VideoCall.

Lemma role_cases (e : Env) : role e = "farmer" \/ role e = "vet".
Proof.
  unfold role. destruct (user e) as [u|]; [|by right].
  destruct (String.eqb _ _); [by left | by right].
Qed.

Lemma role_farmer_iff (e : Env) :
  role e = "farmer" <-> exists u, user e = Some u /\ user_role u = "farmer".
Proof.
  unfold role. split.
  - destruct (user e) as [u|]; [|discriminate].
    destruct (String.eqb_spec (user_role u) "farmer"); [|discriminate].
    intros _. by exists u.
  - intros (u & -> & ->). reflexivity.
Qed.

End VideoCallFacts.

(** ** C8: the signaling role *)

(** C8.  The signaling role is a total, two-valued function of the
    application role of the user: when a user [u] is signed in,
    [connectSignaling] opens the socket at
    [WS_URL/ws/signaling/<session>/<user id>/<r>] where [r] is ["farmer"]
    exactly when [u]'s role is ["farmer"] and ["vet"] for every other
    role; no third value ends the URL. *)
Theorem signaling_role_total (w : VideoCall.World) (u : User)
    (Huser : VideoCall.user (VideoCall.env w) = Some u) :
  exists r : string,
    (r = "farmer" \/ r = "vet")
    /\ (r = "farmer" <-> user_role u = "farmer")
    /\ (r = "vet" <-> user_role u <> "farmer")
    /\ VideoCall.role (VideoCall.env w) = r
    /\ VideoCall.connectSignaling w
       = (Normal tt,
          VideoCall.with_signalingSocket
            (Some {| VideoCall.url :=
                       VideoCall.WS_URL (VideoCall.env w) +:+ "/ws/signaling/"
                         +:+ VideoCall.template
                               (VideoCall.sessionId (VideoCall.env w))
                         +:+ "/" +:+ id u +:+ "/" +:+ r;
                     VideoCall.readyState := VideoCall.CONNECTING |}) w).
Proof.
  exists (VideoCall.role (VideoCall.env w)).
  split; [apply role_cases|].
  assert (Hr : VideoCall.role (VideoCall.env w)
               = if String.eqb (user_role u) "farmer" then "farmer" else "vet")
    by (unfold VideoCall.role; by rewrite Huser).
  repeat split.
  - rewrite Hr. by destruct (String.eqb_spec (user_role u) "farmer").
  - intros Hu. rewrite Hr, Hu. reflexivity.
  - rewrite Hr. by destruct (String.eqb_spec (user_role u) "farmer").
  - rewrite Hr. by destruct (String.eqb_spec (user_role u) "farmer").
  - unfold VideoCall.connectSignaling. js_simpl. rewrite Huser. reflexivity.
Qed.

(** An administrator opening the call page connects as ["vet"]. *)
Lemma signaling_role_total_witness :
  exists r : string,
    (r = "farmer" \/ r = "vet")
    /\ (r = "farmer" <-> "admin" = "farmer")
    /\ (r = "vet" <-> "admin" <> "farmer")
    /\ r = "vet"
    /\ VideoCall.signalingSocket
         (exec VideoCall.connectSignaling
            (VideoCall.init
               {| VideoCall.user := Some {| id := "u7"; user_role := "admin" |};
                  VideoCall.sessionId := Some "s1";
                  VideoCall.REACT_APP_WS_URL := None;
                  VideoCall.toast_info_defined := true |}))
       = Some {| VideoCall.url := "ws://localhost:8000/ws/signaling/s1/u7/vet";
                 VideoCall.readyState := VideoCall.CONNECTING |}.
Proof.
  destruct (signaling_role_total
              (VideoCall.init
                 {| VideoCall.user := Some {| id := "u7"; user_role := "admin" |};
                    VideoCall.sessionId := Some "s1";
                    VideoCall.REACT_APP_WS_URL := None;
                    VideoCall.toast_info_defined := true |})
              {| id := "u7"; user_role := "admin" |} eq_refl)
    as (r & Hr & Hf & Hv & Hrole & Hconn).
  assert (Hvet : r = "vet") by (rewrite <- Hrole; reflexivity).
  exists r. split; [exact Hr|]. split; [exact Hf|]. split; [exact Hv|].
  split; [exact Hvet|].
  unfold exec. rewrite Hconn, Hvet. reflexivity.
Defined.

(** ** C9: ICE candidates and the state of the socket *)

Lemma socket_open_iff (w : VideoCall.World) :
  VideoCall.socket_open w = true
  <-> exists ws, VideoCall.signalingSocket w = Some ws
                 /\ VideoCall.readyState ws = VideoCall.OPEN.
Proof.
  unfold VideoCall.socket_open. split.
  - destruct (VideoCall.signalingSocket w) as [ws|]; [|discriminate].
    destruct (VideoCall.readyState ws) eqn:Hrs; try discriminate.
    intros _. by exists ws.
  - intros (ws & -> & ->). reflexivity.
Qed.

(** C9.  [onicecandidate] writes an ['ice-candidate'] message exactly
    when the event carries a candidate and the signaling socket exists
    and is OPEN: then the message, with that candidate, is the one call
    made; in every other case the handler returns without touching the
    world, so nothing is sent.  The handler never throws. *)
Theorem ice_candidate_sent_iff_open (c : option VideoCall.Candidate)
    (w : VideoCall.World) :
  VideoCall.onicecandidate c w
  = (Normal tt,
     match c with
     | Some cand =>
         if VideoCall.socket_open w
         then VideoCall.record (VideoCall.send (VideoCall.ice_candidate cand)) w
         else w
     | None => w
     end)
  /\ (VideoCall.calls (exec (VideoCall.onicecandidate c) w) <> VideoCall.calls w
      <-> is_Some c
          /\ exists ws, VideoCall.signalingSocket w = Some ws
                        /\ VideoCall.readyState ws = VideoCall.OPEN).
Proof.
  assert (Heq : VideoCall.onicecandidate c w
    = (Normal tt,
       match c with
       | Some cand =>
           if VideoCall.socket_open w
           then VideoCall.record
                  (VideoCall.send (VideoCall.ice_candidate cand)) w
           else w
       | None => w
       end)).
  { unfold VideoCall.onicecandidate. destruct c as [cand|]; [|reflexivity].
    destruct w as [e st pc [[u []]|] ts tm cs]; reflexivity. }
  split; [exact Heq|].
  unfold exec. rewrite Heq. cbn [snd].
  rewrite <- socket_open_iff.
  destruct c as [cand|].
  - destruct (VideoCall.socket_open w); cbn.
    + split; [intros _; split; [by eexists | reflexivity]|].
      intros _ Hcalls.
      apply (f_equal length) in Hcalls. rewrite length_app in Hcalls.
      cbn in Hcalls. lia.
    + split; [congruence | intros [_ ?]; discriminate].
  - split; [congruence | intros [[? ?] _]; discriminate].
Qed.

(** ** C3: the peer-disconnected notice *)

(** C3.  A ['peer-disconnected'] frame only sets the call status to
    ['Peer disconnected']: the local tracks, the peer connection, the
    signaling socket, the pending timers and the list of calls made
    (no stop, no close, no navigation, nothing sent) are as before. *)
Theorem peer_disconnected_keeps_call (w : VideoCall.World)
    (data : VideoCall.Data) (rtc : option VideoCall.Sdp)
    (Hsock : is_Some (VideoCall.signalingSocket w))
    (Htype : VideoCall.type data = "peer-disconnected") :
  let w' := VideoCall.handle (VideoCall.ws_message data rtc) w in
  VideoCall.callStatus (VideoCall.state w') = "Peer disconnected"
  /\ VideoCall.tracks w' = VideoCall.tracks w
  /\ VideoCall.peerConnection w' = VideoCall.peerConnection w
  /\ VideoCall.signalingSocket w' = VideoCall.signalingSocket w
  /\ VideoCall.timers w' = VideoCall.timers w
  /\ VideoCall.calls w' = VideoCall.calls w
  /\ VideoCall.localStream (VideoCall.state w')
     = VideoCall.localStream (VideoCall.state w).
Proof.
  cbn [VideoCall.handle].
  rewrite bool_decide_eq_true_2 by exact Hsock.
  unfold VideoCall.onmessage. js_simpl. rewrite Htype. cbn.
  repeat split.
Qed.

Lemma peer_disconnected_keeps_call_witness :
  let w := Samples.in_call Samples.vetB in
  let w' := VideoCall.handle
              (VideoCall.ws_message (Samples.frame "peer-disconnected") None)
              w in
  VideoCall.callStatus (VideoCall.state w') = "Peer disconnected"
  /\ VideoCall.tracks w' = Samples.camera
  /\ VideoCall.peerConnection w' = Some {| VideoCall.pc_closed := false |}
  /\ VideoCall.calls w' = [VideoCall.send (VideoCall.ready "vet")].
Proof.
  pose proof (peer_disconnected_keeps_call
                (Samples.in_call Samples.vetB)
                (Samples.frame "peer-disconnected") None
                (ltac:(vm_compute; eauto)) eq_refl)
    as (Hst & Htr & Hpc & _ & _ & Hcalls & _).
  cbv zeta. rewrite Htr, Hpc, Hcalls. split; [exact Hst|].
  vm_compute. repeat split.
Defined.

(** ** C5: the requests that create and join a session *)

(** C5.  Every request [handleConnectVet] issues is the one
    session-creation request, whose body names the report and the
    farmer and carries a null [vet_id]; the identity of the vet appears
    only in the request of [joinCall], as its [vet_id]. *)
Theorem create_session_leaves_vet_unset (u : User) (reportId : string)
    (response : Dashboards.Request -> option string)
    (sessionId reportId' : string) (joined : Dashboards.Request -> bool) :
  let create := Dashboards.createSession u reportId in
  let join := Dashboards.joinSession u sessionId in
  Dashboards.requests
    (Dashboards.handleConnectVet (Some u) reportId response) = [create]
  /\ Dashboards.requests
       (Dashboards.handleConnectVet None reportId response) = []
  /\ Dashboards.method create = "POST"
  /\ Dashboards.path create = "/signaling/session/create"
  /\ Dashboards.body create !! "vet_id" = Some Dashboards.JNull
  /\ Dashboards.body create !! "report_id"
     = Some (Dashboards.JString reportId)
  /\ Dashboards.body create !! "farmer_id"
     = Some (Dashboards.JString (id u))
  /\ dom (Dashboards.body create)
     = ({["report_id"; "farmer_id"; "vet_id"]} : gset string)
  /\ Dashboards.requests
       (Dashboards.joinCall (Some u) sessionId reportId' joined) = [join]
  /\ Dashboards.path join = "/signaling/session/" +:+ sessionId +:+ "/join"
  /\ Dashboards.body join = {[ "vet_id" := Dashboards.JString (id u) ]}.
Proof.
  cbv zeta.
  split; [unfold Dashboards.handleConnectVet; by destruct (response _)|].
  split; [reflexivity|]. split; [reflexivity|]. split; [reflexivity|].
  unfold Dashboards.createSession; cbn [Dashboards.body].
  split; [rewrite !lookup_insert_ne by done; apply lookup_singleton_eq|].
  split; [apply lookup_insert_eq|].
  split; [rewrite lookup_insert_ne by done; apply lookup_insert_eq|].
  split; [rewrite !dom_insert_L, dom_singleton_L; set_solver|].
  split; [unfold Dashboards.joinCall; by destruct (joined _)|].
  split; reflexivity.
Qed.

(** ** C4: reconnection after a closed socket *)

Lemma scheduled_handle (WS_URL : string) (u : User) (ev : Dashboards.Event)
    (n : Dashboards.Notifications) :
  Dashboards.scheduled (Dashboards.handle WS_URL u ev n)
  = Dashboards.scheduled n
  \/ Dashboards.scheduled (Dashboards.handle WS_URL u ev n)
     = Dashboards.scheduled n ++ [3000%nat].
Proof.
  destruct ev; cbn.
  - by left.
  - destruct (Dashboards.sockets n); [by left | by right].
  - destruct (Dashboards.pending n); by left.
Qed.

Lemma scheduled_run (WS_URL : string) (u : User) (evs : list Dashboards.Event) :
  forall n,
    Forall (fun d => d = 3000%nat) (Dashboards.scheduled n) ->
    Forall (fun d => d = 3000%nat)
           (Dashboards.scheduled (Dashboards.run WS_URL u evs n)).
Proof.
  induction evs as [|ev evs IH]; intros n Hn; [exact Hn|].
  cbn. apply IH.
  destruct (scheduled_handle WS_URL u ev n) as [-> | ->]; [exact Hn|].
  apply Forall_app. split; [exact Hn | by constructor].
Qed.

(** C4, as stated, fails.  After two closes of the notification socket
    the two reconnects were scheduled with the same delay, so the delays
    do not grow; and a close of the signaling socket of a running call
    schedules nothing and opens no socket. *)
Lemma reconnect_backoff_counterexample :
  ~ Dashboards.delays_grow
      (Dashboards.scheduled
         (Dashboards.run "ws://localhost:8000" Samples.vetB
            [Dashboards.mounted; Dashboards.socket_closed;
             Dashboards.timer_fired; Dashboards.socket_closed]
            Dashboards.start))
  /\ VideoCall.timers
       (VideoCall.handle VideoCall.ws_closed (Samples.in_call Samples.vetB))
     = [].
Proof.
  split; [|reflexivity].
  intros Hgrow.
  specialize (Hgrow 0%nat 3000%nat 3000%nat eq_refl eq_refl). lia.
Qed.

(** C4, amended.  Reconnection uses a fixed delay: every close of the
    notification socket of the vet dashboard schedules one reconnect
    3000 ms later, so every delay ever scheduled is 3000 ms; the close
    handler of the signaling socket schedules no reconnect, makes no
    call and opens no new socket (the socket is left CLOSED). *)
Theorem reconnect_fixed_delay (WS_URL : string) (u : User)
    (evs : list Dashboards.Event) (w : VideoCall.World) :
  Forall (fun d => d = 3000%nat)
         (Dashboards.scheduled (Dashboards.run WS_URL u evs Dashboards.start))
  /\ (forall n,
        Dashboards.scheduled (Dashboards.ws_onclose n)
        = Dashboards.scheduled n ++ [3000%nat]
        /\ Dashboards.pending (Dashboards.ws_onclose n)
           = Dashboards.pending n ++ [3000%nat]
        /\ Dashboards.sockets (Dashboards.ws_onclose n) = Dashboards.sockets n)
  /\ VideoCall.onclose w = (Normal tt, w)
  /\ VideoCall.timers (VideoCall.handle VideoCall.ws_closed w)
     = VideoCall.timers w
  /\ VideoCall.calls (VideoCall.handle VideoCall.ws_closed w)
     = VideoCall.calls w
  /\ VideoCall.signalingSocket (VideoCall.handle VideoCall.ws_closed w)
     = (fun ws => {| VideoCall.url := VideoCall.url ws;
                     VideoCall.readyState := VideoCall.CLOSED |})
         <$> VideoCall.signalingSocket w.
Proof.
  split; [apply scheduled_run; constructor|].
  split; [intros n; split; [|split]; reflexivity|].
  split; [reflexivity|].
  destruct w as [e st pc [ws|] ts tm cs]; cbn; repeat split.
Qed.

(** ** C10: the media toggles *)

Section Toggles.
Import VideoCall.

Lemma with_tracks_compose f g w :
  with_tracks g (with_tracks f w) = with_tracks (fun ts => g (f ts)) w.
Proof. reflexivity. Qed.

Lemma for_each_update_track f (l : list nat) :
  forall w,
    for_each (update_track f) l w
    = (Normal tt,
       with_tracks (fun ts => foldl (fun ts i => alter f i ts) ts l) w).
Proof.
  induction l as [|i l IH]; intros w.
  - by destruct w.
  - cbn [for_each]. unfold eff_bind, update_track at 1, modify.
    rewrite IH. reflexivity.
Qed.

Lemma alter_selected p f (ts : list MediaStreamTrack) :
  forall pre,
    foldl (fun ts i => alter f i ts) (pre ++ ts)
          (track_indices p (length pre) ts)
    = pre ++ map (on_selected p f) ts.
Proof.
  induction ts as [|t ts IH]; intros pre; [reflexivity|].
  cbn [track_indices map]. rewrite foldl_app.
  replace (S (length pre)) with (length (pre ++ [t])) at 1
    by (rewrite length_app; cbn; lia).
  unfold on_selected at 1. destruct (p t); cbn [foldl].
  - rewrite alter_app_r_alt by lia. rewrite Nat.sub_diag. cbn.
    replace (length (pre ++ [t])) with (length (pre ++ [f t]))
      by (rewrite !length_app; reflexivity).
    rewrite (cons_middle (f t)), app_assoc, IH, <- app_assoc. reflexivity.
  - rewrite (cons_middle t), app_assoc, IH, <- app_assoc. reflexivity.
Qed.

Lemma for_each_selected p f w :
  for_each (update_track f) (track_indices p 0 (tracks w)) w
  = (Normal tt, with_tracks (map (on_selected p f)) w).
Proof.
  rewrite for_each_update_track.
  pose proof (alter_selected p f (tracks w) []) as H. cbn in H.
  destruct w; cbn in *. unfold with_tracks; cbn. by rewrite H.
Qed.

Lemma flip_twice k (ts : list MediaStreamTrack) :
  map (on_selected (is_kind k) flip_enabled)
      (map (on_selected (is_kind k) flip_enabled) ts) = ts.
Proof.
  induction ts as [|[kd en ed] ts IH]; [reflexivity|].
  cbn [map]. rewrite IH. f_equal.
  destruct k, kd, en; reflexivity.
Qed.

Lemma toggleMute_eq sc w :
  toggleMute sc w
  = (Normal tt,
     if bool_decide (is_Some (sc_localStream sc))
     then exec (setIsMuted (negb (sc_isMuted sc)))
               (with_tracks (map (on_selected (is_kind audio) flip_enabled)) w)
     else w).
Proof.
  unfold toggleMute. destruct (bool_decide _); [|reflexivity].
  js_simpl. by rewrite for_each_selected.
Qed.

Lemma toggleVideo_eq sc w :
  toggleVideo sc w
  = (Normal tt,
     if bool_decide (is_Some (sc_localStream sc))
     then exec (setIsVideoOff (negb (sc_isVideoOff sc)))
               (with_tracks (map (on_selected (is_kind video) flip_enabled)) w)
     else w).
Proof.
  unfold toggleVideo. destruct (bool_decide _); [|reflexivity].
  js_simpl. by rewrite for_each_selected.
Qed.

End Toggles.

(** One click on the mute button, with a local stream: the audio tracks
    flip, the video tracks do not, and [isMuted] flips. *)
Lemma toggleMute_once (w : VideoCall.World) :
  VideoCall.localStream (VideoCall.state w) = Some VideoCall.UserMedia ->
  let w' := VideoCall.handle VideoCall.click_toggleMute w in
  VideoCall.tracks w'
  = map (VideoCall.on_selected (VideoCall.is_kind VideoCall.audio)
                               VideoCall.flip_enabled) (VideoCall.tracks w)
  /\ VideoCall.isMuted (VideoCall.state w')
     = negb (VideoCall.isMuted (VideoCall.state w)).
Proof.
  intros Hls. cbn [VideoCall.handle]. unfold exec.
  rewrite toggleMute_eq. cbn [snd VideoCall.latest_render VideoCall.sc_localStream].
  rewrite Hls. split; reflexivity.
Qed.

(** C10.  Two clicks on the mute button leave the world as it was (every
    track's [enabled] flag, [isMuted] and all the rest), and so do two
    clicks on the video button; in a scope without a local stream both
    functions return without changing anything. *)
Theorem toggles_self_inverse (w : VideoCall.World) (m v : bool) :
  VideoCall.handle VideoCall.click_toggleMute
    (VideoCall.handle VideoCall.click_toggleMute w) = w
  /\ VideoCall.handle VideoCall.click_toggleVideo
       (VideoCall.handle VideoCall.click_toggleVideo w) = w
  /\ VideoCall.toggleMute
       {| VideoCall.sc_localStream := None; VideoCall.sc_isMuted := m;
          VideoCall.sc_isVideoOff := v |} w = (Normal tt, w)
  /\ VideoCall.toggleVideo
       {| VideoCall.sc_localStream := None; VideoCall.sc_isMuted := m;
          VideoCall.sc_isVideoOff := v |} w = (Normal tt, w).
Proof.
  split; [|split; [|split; reflexivity]].
  - cbn [VideoCall.handle]. unfold exec. rewrite !toggleMute_eq.
    destruct w as [e [[[]|] rs cs mu vo] pc ws ts tm cl];
      unfold VideoCall.with_state, VideoCall.with_tracks;
      cbn -[map VideoCall.on_selected]; [|reflexivity].
    rewrite flip_twice, negb_involutive. reflexivity.
  - cbn [VideoCall.handle]. unfold exec. rewrite !toggleVideo_eq.
    destruct w as [e [[[]|] rs cs mu vo] pc ws ts tm cl];
      unfold VideoCall.with_state, VideoCall.with_tracks;
      cbn -[map VideoCall.on_selected]; [|reflexivity].
    rewrite flip_twice, negb_involutive. reflexivity.
Qed.

(** ** C1: who sends the offer *)

Section Idle.
Import VideoCall.

Lemma keeps_ret {A} (a : A) : keeps_idle (mret a).
Proof. intros w H. exact H. Qed.

Lemma keeps_throw {A} (e : Exn) : keeps_idle (throw (A := A) e).
Proof. intros w H. exact H. Qed.

Lemma keeps_gets {A} (f : World -> A) : keeps_idle (gets f).
Proof. intros w H. exact H. Qed.

Lemma keeps_bind {A B} (m : JS A) (f : A -> JS B) :
  keeps_idle m -> (forall a, keeps_idle (f a)) -> keeps_idle (m ≫= f).
Proof.
  intros Hm Hf w H. specialize (Hm w H).
  unfold mbind, eff_mbind, eff_bind.
  destruct (m w) as [[a|e] w']; cbn in *; [by apply Hf | exact Hm].
Qed.

Lemma keeps_try_catch {A} (m : JS A) (h : Exn -> JS A) :
  keeps_idle m -> (forall e, keeps_idle (h e)) -> keeps_idle (try_catch m h).
Proof.
  intros Hm Hh w H. specialize (Hm w H). unfold try_catch.
  destruct (m w) as [[a|e] w']; cbn in *; [exact Hm | by apply Hh].
Qed.

Lemma keeps_when (c : bool) (m : JS unit) :
  keeps_idle m -> keeps_idle (when c m).
Proof. destruct c; [done | intros _; apply (keeps_ret tt)]. Qed.

Lemma keeps_for_each {A} (f : A -> JS unit) (l : list A) :
  (forall a, keeps_idle (f a)) -> keeps_idle (for_each f l).
Proof.
  intros Hf. induction l as [|a l IH]; [apply (keeps_ret tt)|].
  cbn [for_each]. by apply (keeps_bind (f a) (fun _ => for_each f l)).
Qed.

Lemma keeps_call (c : Call) : is_offer c = false -> keeps_idle (call c).
Proof.
  intros Hc w (Hrole & Htm & Hcalls). repeat split; [done..|].
  cbn. apply Forall_app. split; [done | by constructor].
Qed.

Lemma keeps_with_state f : keeps_idle (modify (with_state f)).
Proof. intros w H. exact H. Qed.

Lemma keeps_with_tracks f : keeps_idle (modify (with_tracks f)).
Proof. intros w H. exact H. Qed.

Lemma keeps_with_peerConnection pc :
  keeps_idle (modify (with_peerConnection pc)).
Proof. intros w H. exact H. Qed.

Lemma keeps_with_signalingSocket ws :
  keeps_idle (modify (with_signalingSocket ws)).
Proof. intros w H. exact H. Qed.

Lemma keeps_ws_send (m : SignalMessage) :
  is_offer (send m) = false -> keeps_idle (ws_send m).
Proof.
  intros Hm. unfold ws_send.
  apply keeps_bind; [apply keeps_gets|]. intros [ws|]; [|apply keeps_throw].
  destruct (readyState ws);
    [apply keeps_throw | by apply keeps_call | apply (keeps_ret tt)..].
Qed.

End Idle.

(** Goals [keeps_idle m], by the structure of [m]. *)
Ltac keeps_idle_step :=
  first
    [ apply keeps_bind; [|intros ?]
    | apply keeps_try_catch; [|intros ?]
    | apply keeps_when
    | apply keeps_for_each; intros ?
    | apply keeps_ret
    | apply keeps_throw
    | apply keeps_gets
    | apply keeps_call; reflexivity
    | apply keeps_ws_send; reflexivity
    | apply keeps_with_state
    | apply keeps_with_tracks
    | apply keeps_with_peerConnection
    | apply keeps_with_signalingSocket
    | assumption
    | match goal with
      | |- VideoCall.keeps_idle (match ?x with _ => _ end) => destruct x
      | |- VideoCall.keeps_idle (if ?x then _ else _) => destruct x
      end ].

Ltac keeps_idle := repeat keeps_idle_step.

Section IdleHandlers.
Import VideoCall.

Lemma keeps_cleanup sc : keeps_idle (cleanup sc).
Proof. unfold cleanup, update_track. keeps_idle. Qed.

Lemma keeps_handleOffer remote rtc : keeps_idle (handleOffer remote rtc).
Proof. unfold handleOffer. keeps_idle. Qed.

Lemma keeps_handleRemoteHangup sc : keeps_idle (handleRemoteHangup sc).
Proof.
  unfold handleRemoteHangup, toast_info.
  pose proof (keeps_cleanup sc). keeps_idle.
Qed.

Lemma keeps_endCall sc : keeps_idle (endCall sc).
Proof. unfold endCall. pose proof (keeps_cleanup sc). keeps_idle. Qed.

Lemma keeps_toggleMute sc : keeps_idle (toggleMute sc).
Proof. unfold toggleMute, update_track, setIsMuted. keeps_idle. Qed.

Lemma keeps_toggleVideo sc : keeps_idle (toggleVideo sc).
Proof. unfold toggleVideo, update_track, setIsVideoOff. keeps_idle. Qed.

Lemma keeps_onicecandidate c : keeps_idle (onicecandidate c).
Proof. unfold onicecandidate. keeps_idle. Qed.

Lemma keeps_ontrack : keeps_idle ontrack.
Proof. unfold ontrack, setRemoteStream, setCallStatus. keeps_idle. Qed.

Lemma keeps_onconnectionstatechange s :
  keeps_idle (onconnectionstatechange s).
Proof. unfold onconnectionstatechange, setCallStatus. keeps_idle. Qed.

Lemma keeps_initializeCall gum : keeps_idle (initializeCall gum).
Proof.
  unfold initializeCall, connectSignaling, initPeerConnection,
    setLocalStream, setCallStatus.
  keeps_idle.
Qed.

End IdleHandlers.

Section IdleEvents.
Import VideoCall.

Lemma keeps_bind_gets {A B} (g : World -> A) (f : A -> JS B) :
  (forall w, idle w -> idle (snd (f (g w) w))) -> keeps_idle (gets g ≫= f).
Proof. intros H w Hidle. by apply H. Qed.

(** [onopen] of a client that is not the farmer sets no timer. *)
Lemma keeps_onopen : keeps_idle onopen.
Proof.
  unfold onopen. apply keeps_bind_gets. intros w Hidle.
  destruct (String.eqb_spec (role (env w)) "farmer") as [Hf|_];
    [by destruct Hidle|].
  refine (keeps_bind _ _ _ _ w Hidle); keeps_idle.
Qed.

(** [onmessage] of a client that is not the farmer never reaches
    [createOffer]. *)
Lemma keeps_onmessage sc data rtc : keeps_idle (onmessage sc data rtc).
Proof.
  unfold onmessage. apply keeps_bind_gets. intros w Hidle.
  destruct (String.eqb_spec (role (env w)) "farmer") as [Hf|_];
    [by destruct Hidle|].
  destruct (String.eqb (type data) "ready"); [exact Hidle|].
  destruct (String.eqb (type data) "offer");
    [by apply keeps_handleOffer|].
  destruct (String.eqb (type data) "answer"); [exact Hidle|].
  destruct (String.eqb (type data) "ice-candidate"); [exact Hidle|].
  destruct (String.eqb (type data) "hangup");
    [by apply keeps_handleRemoteHangup|].
  destruct (String.eqb (type data) "peer-disconnected"); exact Hidle.
Qed.

Lemma idle_set_readyState rs w : idle w -> idle (set_readyState rs w).
Proof. unfold set_readyState. by destruct (signalingSocket w). Qed.

Lemma idle_handle ev w : idle w -> idle (handle ev w).
Proof.
  intros Hidle. destruct ev; cbn [handle]; unfold exec.
  - by apply keeps_initializeCall.
  - by apply keeps_cleanup.
  - destruct (signalingSocket w) as [[u []]|] eqn:Hws; try done.
    apply keeps_onopen. by apply idle_set_readyState.
  - destruct (bool_decide _); [by apply keeps_onmessage | done].
  - destruct (bool_decide _); [|done].
    apply (keeps_call (toast "error" "Signaling connection error") eq_refl).
    done.
  - destruct (bool_decide _); [|done]. by apply idle_set_readyState.
  - destruct (bool_decide _); [by apply keeps_onicecandidate | done].
  - destruct (bool_decide _); [by apply keeps_ontrack | done].
  - destruct (bool_decide _);
      [by apply keeps_onconnectionstatechange | done].
  - destruct (timers w) eqn:Htm; [done|].
    destruct Hidle as (_ & Hnone & _). congruence.
  - by apply keeps_endCall.
  - by apply keeps_toggleMute.
  - by apply keeps_toggleVideo.
Qed.

Lemma idle_run evs : forall w, idle w -> idle (run evs w).
Proof.
  induction evs as [|ev evs IH]; intros w Hidle; [done|].
  cbn. apply IH. by apply idle_handle.
Qed.

Lemma idle_init e : role e <> "farmer" -> idle (init e).
Proof. intros Hrole. repeat split; [done | constructor]. Qed.

End IdleEvents.

(** C1.  Over every run of the call page, an ['offer'] frame is written
    to the signaling socket only by a client whose signaling role is
    ['farmer'], that is, whose user has the application role
    ['farmer']. *)
Theorem offer_only_from_farmer (e : VideoCall.Env)
    (evs : list VideoCall.Event) (o : VideoCall.Sdp)
    (Hsent : In (VideoCall.send (VideoCall.offer o))
                (VideoCall.calls (VideoCall.run evs (VideoCall.init e)))) :
  VideoCall.role e = "farmer"
  /\ exists u, VideoCall.user e = Some u /\ user_role u = "farmer".
Proof.
  assert (Hrole : VideoCall.role e = "farmer").
  { destruct (decide (VideoCall.role e = "farmer")) as [Hf|Hnf]; [exact Hf|].
    destruct (idle_run evs _ (idle_init e Hnf)) as (_ & _ & Hcalls).
    rewrite Forall_forall in Hcalls.
    apply list_elem_of_In, Hcalls in Hsent. discriminate. }
  split; [exact Hrole | by apply role_farmer_iff].
Qed.

Lemma offer_only_from_farmer_witness :
  In (VideoCall.send (VideoCall.offer "sdp1"))
     (VideoCall.calls
        (VideoCall.run
           [VideoCall.mount (Some Samples.camera); VideoCall.ws_open;
            VideoCall.timeout (Some "sdp1")]
           (VideoCall.init (Samples.page Samples.farmerA))))
  /\ VideoCall.role (Samples.page Samples.farmerA) = "farmer".
Proof.
  assert (Hsent : In (VideoCall.send (VideoCall.offer "sdp1"))
     (VideoCall.calls
        (VideoCall.run
           [VideoCall.mount (Some Samples.camera); VideoCall.ws_open;
            VideoCall.timeout (Some "sdp1")]
           (VideoCall.init (Samples.page Samples.farmerA)))))
    by (vm_compute; right; right; left; reflexivity).
  split; [exact Hsent|].
  exact (proj1 (offer_only_from_farmer _ _ _ Hsent)).
Defined.

(** A client that is not the farmer sends no offer and sets no timer,
    whatever happens: in particular not when its socket opens and not
    when a ['ready'] frame arrives. *)
Lemma non_farmer_never_offers (e : VideoCall.Env)
    (evs : list VideoCall.Event) :
  VideoCall.role e <> "farmer" ->
  VideoCall.timers (VideoCall.run evs (VideoCall.init e)) = []
  /\ forall o, ~ In (VideoCall.send (VideoCall.offer o))
                    (VideoCall.calls (VideoCall.run evs (VideoCall.init e))).
Proof.
  intros Hnf.
  destruct (idle_run evs _ (idle_init e Hnf)) as (_ & Htm & Hcalls).
  split; [exact Htm|]. intros o Hin.
  rewrite Forall_forall in Hcalls.
  apply list_elem_of_In, Hcalls in Hin. discriminate.
Qed.

(** ** C2: hanging up *)

Section Hangup.
Import VideoCall.

(** The loop of [cleanup] over the tracks. *)
Lemma for_each_stop (l : list nat) :
  forall w,
    for_each (fun i => call (track_stop i);; update_track stop i) l w
    = (Normal tt,
       {| env := env w; state := state w;
          peerConnection := peerConnection w;
          signalingSocket := signalingSocket w;
          tracks := foldl (fun ts i => alter stop i ts) (tracks w) l;
          timers := timers w;
          calls := calls w ++ map track_stop l |}).
Proof.
  induction l as [|i l IH]; intros w.
  - cbn. rewrite app_nil_r. by destruct w.
  - cbn [for_each]. unfold eff_bind at 1.
    unfold mbind, eff_mbind, eff_bind, call, update_track, modify.
    rewrite IH. cbn. by rewrite <- app_assoc.
Qed.

Lemma stop_every_track (ts : list MediaStreamTrack) :
  foldl (fun ts i => alter stop i ts) ts (track_indices (fun _ => true) 0 ts)
  = map stop ts.
Proof. exact (alter_selected (fun _ => true) stop ts []). Qed.

(** In the scope of the first render [cleanup] does not reach the
    tracks: [localStream] is still the [null] of [useState(null)]. *)
Lemma cleanup_first_render_tracks (w : World) :
  tracks (exec (cleanup first_render) w) = tracks w.
Proof. by destruct w as [e st [pc|] [ws|] ts tm cs]. Qed.

(** No frame from the peer stops a local track. *)
Lemma ws_message_tracks (data : Data) (rtc : option Sdp) (w : World) :
  tracks (handle (ws_message data rtc) w) = tracks w.
Proof.
  cbn [handle]. destruct (bool_decide _); [|reflexivity].
  unfold exec, onmessage. js_simpl.
  repeat match goal with
         | |- context [if ?b then _ else _] => destruct b
         end; try reflexivity.
  - unfold createOffer, ws_send. js_simpl.
    destruct w as [e st [[[]]|] [[u []]|] ts tm cs], rtc; reflexivity.
  - unfold handleOffer, ws_send. js_simpl.
    destruct w as [e st [[[]]|] [[u []]|] ts tm cs], rtc, (sdp data);
      reflexivity.
  - unfold handleRemoteHangup, toast_info. js_simpl.
    destruct w as [e st [pc|] [ws|] ts tm cs]; cbn;
      destruct (toast_info_defined e); reflexivity.
Qed.

End Hangup.

(** The End Call button, pressed during a call: ['hangup'] is written
    first, then every local track is stopped, the peer connection and
    the socket are closed and the page is left. *)
Lemma endCall_sends_hangup_then_tears_down (w : VideoCall.World)
    (pc : VideoCall.RTCPeerConnection) (ws : VideoCall.WebSocket) :
  VideoCall.localStream (VideoCall.state w) = Some VideoCall.UserMedia ->
  VideoCall.peerConnection w = Some pc ->
  VideoCall.signalingSocket w = Some ws ->
  VideoCall.readyState ws = VideoCall.OPEN ->
  let w' := VideoCall.handle VideoCall.click_endCall w in
  VideoCall.calls w'
  = VideoCall.calls w
      ++ [VideoCall.send VideoCall.hangup]
      ++ map VideoCall.track_stop
             (VideoCall.track_indices (fun _ => true) 0 (VideoCall.tracks w))
      ++ [VideoCall.pc_close; VideoCall.ws_close; VideoCall.navigate (-1)]
  /\ VideoCall.tracks w' = map VideoCall.stop (VideoCall.tracks w)
  /\ VideoCall.peerConnection w' = Some {| VideoCall.pc_closed := true |}
  /\ VideoCall.signalingSocket w'
     = Some {| VideoCall.url := VideoCall.url ws;
               VideoCall.readyState := VideoCall.CLOSING |}.
Proof.
  destruct w as [e [ls rs cs mu vo] pc' ws' ts tm cl], ws as [u rdy].
  cbn. intros -> -> -> ->.
  unfold exec, VideoCall.endCall, VideoCall.cleanup, VideoCall.ws_send.
  js_simpl. cbn. rewrite for_each_stop. cbn.
  rewrite stop_every_track.
  repeat split. rewrite <- !app_assoc. reflexivity.
Qed.

(** C2, where the code departs from it.  A vet is in a call (camera and
    microphone acquired, socket open) and a ['hangup'] frame arrives.
    The peer connection and the socket are closed and the page is left,
    but no [track_stop] is called and both local tracks are still live,
    also after the page has unmounted: the handler runs [cleanup] in the
    scope of the first render, where [localStream] is [null].  (With a
    [toast] object that has no [info] method the handler throws before
    [cleanup] and changes nothing at all.)  The End Call button of the
    same page does stop the tracks. *)
Theorem remote_hangup_leaves_tracks_live :
  let w := Samples.in_call Samples.vetB in
  let w' := VideoCall.handle
              (VideoCall.ws_message (Samples.frame "hangup") None) w in
  VideoCall.calls w'
  = [VideoCall.send (VideoCall.ready "vet");
     VideoCall.toast "info" "Remote user ended the call";
     VideoCall.pc_close; VideoCall.ws_close; VideoCall.navigate (-1)]
  /\ VideoCall.peerConnection w' = Some {| VideoCall.pc_closed := true |}
  /\ VideoCall.readyState <$> VideoCall.signalingSocket w'
     = Some VideoCall.CLOSING
  /\ VideoCall.localStream (VideoCall.state w') = Some VideoCall.UserMedia
  /\ VideoCall.tracks w' = Samples.camera
  /\ Forall (fun t => VideoCall.ended t = false) (VideoCall.tracks w')
  /\ Forall (fun t => VideoCall.ended t = false)
            (VideoCall.tracks (VideoCall.handle VideoCall.unmount w'))
  /\ Forall (fun t => VideoCall.ended t = true)
            (VideoCall.tracks (VideoCall.handle VideoCall.click_endCall w))
  /\ (let bare :=
        VideoCall.run [VideoCall.mount (Some Samples.camera); VideoCall.ws_open]
          (VideoCall.init
             {| VideoCall.user := Some Samples.vetB;
                VideoCall.sessionId := Some "s1";
                VideoCall.REACT_APP_WS_URL := None;
                VideoCall.toast_info_defined := false |}) in
      VideoCall.handle (VideoCall.ws_message (Samples.frame "hangup") None) bare
      = bare).
Proof.
  cbv zeta.
  split; [reflexivity|]. split; [reflexivity|]. split; [reflexivity|].
  split; [reflexivity|]. split; [reflexivity|].
  split; [|split; [|split]]; vm_compute; repeat constructor.
Qed.

(** ** C6 and C7: the states of a call session *)

Section SessionFacts.
Import SessionCore.

Lemma advanced_refl s : advanced s s.
Proof. by repeat split. Qed.

Lemma advanced_trans s1 s2 s3 :
  advanced s1 s2 -> advanced s2 s3 -> advanced s1 s3.
Proof.
  intros (? & ? & ? & ? & ?) (? & ? & ? & ? & ?).
  repeat split; [lia | congruence..].
Qed.

Lemma store_notify_terminal sid r c :
  store (notify_terminal sid r c) = store c.
Proof. unfold notify_terminal. by destruct (registry c !! (sid, r)). Qed.

Lemma store_attach sid r ch c : store (attach sid r ch c) = store c.
Proof. unfold attach. by destruct (registry c !! (sid, r)). Qed.

(** The store after [end]. *)
Lemma store_end now sid c :
  store (snd (end_ now sid c))
  = match store c !! sid with
    | Some s => if live s then <[sid := terminate now s]> (store c)
                else store c
    | None => store c
    end.
Proof.
  unfold end_, live. destruct (store c !! sid) as [s|]; [|reflexivity].
  destruct (state s); cbn; by rewrite ?store_notify_terminal.
Qed.

Lemma keeps_sessions_refl c : keeps_sessions c c.
Proof. intros sid s Hs. exists s. split; [done | apply advanced_refl]. Qed.

Lemma keeps_sessions_same c c' : store c' = store c -> keeps_sessions c c'.
Proof. intros Heq sid s Hs. rewrite Heq. by apply keeps_sessions_refl. Qed.

(** Replacing one record by a later version of itself. *)
Lemma keeps_sessions_insert c c' sid s s' :
  store c !! sid = Some s -> advanced s s' ->
  store c' = <[sid := s']> (store c) -> keeps_sessions c c'.
Proof.
  intros Hs Hadv Heq k t Ht. rewrite Heq.
  destruct (decide (k = sid)) as [->|Hne].
  - rewrite lookup_insert_eq. exists s'. split; [done|]. congruence.
  - rewrite lookup_insert_ne by done. exists t.
    split; [done | apply advanced_refl].
Qed.

Lemma keeps_sessions_end now sid c : keeps_sessions c (snd (end_ now sid c)).
Proof.
  pose proof (store_end now sid c) as Hst.
  destruct (store c !! sid) as [s|] eqn:Hs;
    [|by apply keeps_sessions_same].
  destruct (live s) eqn:Hlive; [|by apply keeps_sessions_same].
  apply (keeps_sessions_insert c _ sid s (terminate now s)); [done| |done].
  repeat split. cbn. destruct (state s); cbn; lia.
Qed.

End SessionFacts.

Section SessionSteps.
Import SessionCore.

Lemma keeps_sessions_trans c1 c2 c3 :
  keeps_sessions c1 c2 -> keeps_sessions c2 c3 -> keeps_sessions c1 c3.
Proof.
  intros H12 H23 sid s Hs.
  destruct (H12 sid s Hs) as (s2 & Hs2 & Ha).
  destruct (H23 sid s2 Hs2) as (s3 & Hs3 & Hb).
  exists s3. split; [done | by eapply advanced_trans].
Qed.

(** [create] takes an id no session has. *)
Lemma keeps_sessions_create cfg now report who c :
  keeps_sessions c (snd (create cfg now report who c)).
Proof.
  intros sid s Hs. cbn.
  assert (Hne : fresh (dom (store c)) <> sid).
  { intros Heq. apply (is_fresh (dom (store c))).
    rewrite Heq. apply elem_of_dom. by exists s. }
  rewrite lookup_insert_ne by done.
  exists s. split; [done | apply advanced_refl].
Qed.

Lemma keeps_sessions_join sid who c : keeps_sessions c (snd (join sid who c)).
Proof.
  unfold join. destruct (store c !! sid) as [s|] eqn:Hs;
    [|apply keeps_sessions_refl].
  destruct (state s) eqn:Hst; try apply keeps_sessions_refl;
    (destruct (counterpartId s) as [prior|];
     [destruct (String.eqb prior who); apply keeps_sessions_refl|]);
    (apply (keeps_sessions_insert c _ sid s (set_counterpart who s));
     [done | by repeat split | done]).
Qed.

Lemma keeps_sessions_onConnect sid who r ch c :
  keeps_sessions c (snd (onConnect sid who r ch c)).
Proof.
  unfold onConnect. destruct (store c !! sid) as [s|] eqn:Hs;
    [|apply keeps_sessions_refl].
  destruct (live s) eqn:Hlive; [|apply keeps_sessions_refl].
  destruct (bothPresent _ _); cbn [snd].
  - apply (keeps_sessions_insert c _ sid s (set_state Active s)); [done| |].
    + repeat split. cbn. unfold live in Hlive.
      destruct (state s); cbn; [lia | lia | discriminate].
    + unfold with_store, with_grace; cbn [store]. by rewrite store_attach.
  - apply keeps_sessions_same.
    unfold with_grace; cbn [store]. by rewrite store_attach.
Qed.

Lemma keeps_sessions_onDisconnect cfg now sid r c :
  keeps_sessions c (onDisconnect cfg now sid r c).
Proof.
  apply keeps_sessions_same. unfold onDisconnect.
  repeat match goal with
         | |- context [match ?x with _ => _ end] => destruct x
         end; reflexivity.
Qed.

Lemma keeps_sessions_relay now sid from m c :
  keeps_sessions c (snd (relay now sid from m c)).
Proof.
  unfold relay. destruct (store c !! sid) as [s|] eqn:Hs;
    [|apply keeps_sessions_refl].
  destruct (live s); [|apply keeps_sessions_refl].
  assert (Hw : keeps_sessions c
                 match peerOf sid from c with
                 | Some ch => write ch (Signal m) c
                 | None => c
                 end)
    by (apply keeps_sessions_same; by destruct (peerOf sid from c)).
  destruct m; cbn [snd]; try exact Hw.
  eapply keeps_sessions_trans; [exact Hw | apply keeps_sessions_end].
Qed.

Lemma keeps_sessions_graceExpired now sid r c :
  keeps_sessions c (graceExpired now sid r c).
Proof.
  unfold graceExpired. destruct (grace c !! (sid, r));
    [|apply keeps_sessions_refl].
  destruct (bool_decide _);
    [apply keeps_sessions_end | apply keeps_sessions_refl].
Qed.

Lemma keeps_sessions_abandonExpired now sid c :
  keeps_sessions c (abandonExpired now sid c).
Proof.
  unfold abandonExpired.
  destruct (abandon c !! sid); [|apply keeps_sessions_refl].
  destruct (store c !! sid) as [s|]; [|apply keeps_sessions_refl].
  destruct (state s); try apply keeps_sessions_refl.
  destruct (bool_decide _);
    [apply keeps_sessions_end | apply keeps_sessions_refl].
Qed.

Lemma keeps_sessions_step cfg op c : keeps_sessions c (step cfg op c).
Proof.
  destruct op; cbn [step].
  - apply keeps_sessions_create.
  - apply keeps_sessions_join.
  - apply keeps_sessions_onConnect.
  - apply keeps_sessions_onDisconnect.
  - apply keeps_sessions_relay.
  - apply keeps_sessions_end.
  - apply keeps_sessions_graceExpired.
  - apply keeps_sessions_abandonExpired.
Qed.

Lemma keeps_sessions_run cfg ops : forall c, keeps_sessions c (run cfg ops c).
Proof.
  induction ops as [|op ops IH]; intros c; [apply keeps_sessions_refl|].
  cbn. eapply keeps_sessions_trans; [apply keeps_sessions_step | apply IH].
Qed.

Lemma run_app cfg ops1 ops2 c :
  run cfg (ops1 ++ ops2) c = run cfg ops2 (run cfg ops1 c).
Proof. apply foldl_app. Qed.

End SessionSteps.

(** C6.  The state of a call session only moves forward along
    [Created], [Active], [Ended]: a session found in the store after
    some operations is still there after any further operations
    (create, join, connect, disconnect, relay with hangup, end, the two
    timeouts), in the same or a later state; in particular [Ended] is
    terminal and an [Active] session is never [Created] again. *)
Theorem session_state_monotonic (cfg : SessionCore.Config)
    (before after : list SessionCore.Op) (sid : nat)
    (s : SessionCore.CallSession)
    (Hs : SessionCore.store (SessionCore.run cfg before SessionCore.empty)
            !! sid = Some s) :
  exists s',
    SessionCore.store
      (SessionCore.run cfg (before ++ after) SessionCore.empty) !! sid
    = Some s'
    /\ (SessionCore.rank (SessionCore.state s)
        <= SessionCore.rank (SessionCore.state s'))%nat
    /\ (SessionCore.state s = SessionCore.Ended ->
        SessionCore.state s' = SessionCore.Ended)
    /\ (SessionCore.state s = SessionCore.Active ->
        SessionCore.state s' <> SessionCore.Created).
Proof.
  rewrite run_app.
  destruct (keeps_sessions_run cfg after _ sid s Hs) as (s' & Hs' & Hle & _).
  exists s'. split; [exact Hs'|]. split; [exact Hle|].
  split; intros Hst; rewrite Hst in Hle;
    destruct (SessionCore.state s'); cbn in Hle; (done || lia).
Qed.

Lemma session_state_monotonic_witness :
  exists s s',
    SessionCore.store
      (SessionCore.run SessionSamples.cfg SessionSamples.setup
         SessionCore.empty) !! 0%nat = Some s
    /\ SessionCore.state s = SessionCore.Active
    /\ SessionCore.store
         (SessionCore.run SessionSamples.cfg
            (SessionSamples.setup ++ SessionSamples.teardown)
            SessionCore.empty) !! 0%nat = Some s'
    /\ SessionCore.state s' = SessionCore.Ended
    /\ (SessionCore.rank (SessionCore.state s)
        <= SessionCore.rank (SessionCore.state s'))%nat.
Proof.
  eexists.
  assert (Hs : SessionCore.store
      (SessionCore.run SessionSamples.cfg SessionSamples.setup
         SessionCore.empty) !! 0%nat = Some
         {| SessionCore.id := 0; SessionCore.reportId := "r1";
            SessionCore.initiatorId := "farmerA";
            SessionCore.counterpartId := Some "vetB";
            SessionCore.state := SessionCore.Active;
            SessionCore.createdAt := 0; SessionCore.endedAt := None |})
    by (vm_compute; reflexivity).
  destruct (session_state_monotonic SessionSamples.cfg SessionSamples.setup
              SessionSamples.teardown 0%nat _ Hs)
    as (s' & Hs' & Hle & _ & _).
  exists s'. split; [exact Hs|]. split; [reflexivity|].
  split; [exact Hs'|]. split; [|exact Hle].
  assert (Hs'' : SessionCore.store
         (SessionCore.run SessionSamples.cfg
            (SessionSamples.setup ++ SessionSamples.teardown)
            SessionCore.empty) !! 0%nat = Some
         {| SessionCore.id := 0; SessionCore.reportId := "r1";
            SessionCore.initiatorId := "farmerA";
            SessionCore.counterpartId := Some "vetB";
            SessionCore.state := SessionCore.Ended;
            SessionCore.createdAt := 0; SessionCore.endedAt := Some 9%nat |})
    by (vm_compute; reflexivity).
  rewrite Hs' in Hs''. injection Hs'' as ->. reflexivity.
Defined.

(** C7.  [end] is idempotent.  On a session that is already [Ended] it
    returns the record as it is, without an error and without changing
    the core; and after a first [end] that succeeded, a second one (at
    any later time) returns the same terminal record, with the same
    [endedAt], and leaves the core as the first one left it. *)
Theorem end_idempotent (now now' : SessionCore.Time) (sid : nat)
    (c c1 : SessionCore.Core) (s : SessionCore.CallSession)
    (Hend : SessionCore.end_ now sid c = (SessionCore.Ok s, c1)) :
  SessionCore.state s = SessionCore.Ended
  /\ SessionCore.store c1 !! sid = Some s
  /\ SessionCore.end_ now' sid c1 = (SessionCore.Ok s, c1)
  /\ (forall c0 s0,
        SessionCore.store c0 !! sid = Some s0 ->
        SessionCore.state s0 = SessionCore.Ended ->
        SessionCore.end_ now' sid c0 = (SessionCore.Ok s0, c0)).
Proof.
  assert (Hnoop : forall c0 s0,
        SessionCore.store c0 !! sid = Some s0 ->
        SessionCore.state s0 = SessionCore.Ended ->
        SessionCore.end_ now' sid c0 = (SessionCore.Ok s0, c0)).
  { intros c0 s0 Hs0 Hst. unfold SessionCore.end_. by rewrite Hs0, Hst. }
  assert (Hs : SessionCore.state s = SessionCore.Ended
               /\ SessionCore.store c1 !! sid = Some s).
  { pose proof (store_end now sid c) as Hst. rewrite Hend in Hst.
    cbn [snd] in Hst. unfold SessionCore.end_ in Hend.
    destruct (SessionCore.store c !! sid) as [t|] eqn:Ht; [|discriminate].
    unfold SessionCore.live in Hst.
    destruct (SessionCore.state t) eqn:Hstate;
      injection Hend as <- Hc1; rewrite Hst.
    - split; [reflexivity | apply lookup_insert_eq].
    - split; [reflexivity | apply lookup_insert_eq].
    - split; [exact Hstate | exact Ht]. }
  destruct Hs as [Hst Hs].
  split; [exact Hst|]. split; [exact Hs|].
  split; [by apply Hnoop | exact Hnoop].
Qed.

Lemma end_idempotent_witness :
  let c := SessionCore.run SessionSamples.cfg SessionSamples.setup
             SessionCore.empty in
  let ended :=
    {| SessionCore.id := 0; SessionCore.reportId := "r1";
       SessionCore.initiatorId := "farmerA";
       SessionCore.counterpartId := Some "vetB";
       SessionCore.state := SessionCore.Ended;
       SessionCore.createdAt := 0; SessionCore.endedAt := Some 9%nat |} in
  SessionCore.end_ 9 0 c = (SessionCore.Ok ended, snd (SessionCore.end_ 9 0 c))
  /\ SessionCore.end_ 20 0 (snd (SessionCore.end_ 9 0 c))
     = (SessionCore.Ok ended, snd (SessionCore.end_ 9 0 c)).
Proof.
  cbv zeta.
  assert (Hend : SessionCore.end_ 9 0
                   (SessionCore.run SessionSamples.cfg SessionSamples.setup
                      SessionCore.empty)
                 = (SessionCore.Ok
                      {| SessionCore.id := 0; SessionCore.reportId := "r1";
                         SessionCore.initiatorId := "farmerA";
                         SessionCore.counterpartId := Some "vetB";
                         SessionCore.state := SessionCore.Ended;
                         SessionCore.createdAt := 0;
                         SessionCore.endedAt := Some 9%nat |},
                    snd (SessionCore.end_ 9 0
                           (SessionCore.run SessionSamples.cfg
                              SessionSamples.setup SessionCore.empty))))
    by (vm_compute; reflexivity).
  split; [exact Hend|].
  exact (proj1 (proj2 (proj2 (end_idempotent 9 20 0 _ _ _ Hend)))).
Defined.

(** * More about the call page *)

Section Preserves.
Import VideoCall Protocol.

Lemma preserves_ret {A} I (a : A) : preserves I (mret a).
Proof. intros w H. exact H. Qed.

Lemma preserves_throw {A} I (e : Exn) : preserves I (throw (A := A) e).
Proof. intros w H. exact H. Qed.

Lemma preserves_gets {A} I (f : World -> A) : preserves I (gets f).
Proof. intros w H. exact H. Qed.

Lemma preserves_bind {A B} I (m : JS A) (f : A -> JS B) :
  preserves I m -> (forall a, preserves I (f a)) -> preserves I (m ≫= f).
Proof.
  intros Hm Hf w H. specialize (Hm w H).
  unfold mbind, eff_mbind, eff_bind.
  destruct (m w) as [[a|e] w']; cbn in *; [by apply Hf | exact Hm].
Qed.

Lemma preserves_bind_gets {A B} I (g : World -> A) (f : A -> JS B) :
  (forall w, I w -> I (snd (f (g w) w))) -> preserves I (gets g ≫= f).
Proof. intros H w Hw. by apply H. Qed.

Lemma preserves_bind_at {A B} (I : World -> Prop) (m : JS A) (f : A -> JS B) w :
  I (snd (m w)) -> (forall a, preserves I (f a)) -> I (snd ((m ≫= f) w)).
Proof.
  intros Hm Hf. unfold mbind, eff_mbind, eff_bind.
  destruct (m w) as [[a|e] w']; cbn in *; [by apply Hf | exact Hm].
Qed.

Lemma preserves_try_catch {A} I (m : JS A) (h : Exn -> JS A) :
  preserves I m -> (forall e, preserves I (h e)) ->
  preserves I (try_catch m h).
Proof.
  intros Hm Hh w H. specialize (Hm w H). unfold try_catch.
  destruct (m w) as [[a|e] w']; cbn in *; [exact Hm | by apply Hh].
Qed.

Lemma preserves_when I (c : bool) (m : JS unit) :
  preserves I m -> preserves I (when c m).
Proof. destruct c; [done | intros _; apply (preserves_ret I tt)]. Qed.

Lemma preserves_for_each {A} I (f : A -> JS unit) (l : list A) :
  (forall a, preserves I (f a)) -> preserves I (for_each f l).
Proof.
  intros Hf. induction l as [|a l IH]; [apply (preserves_ret I tt)|].
  cbn [for_each]. by apply (preserves_bind I (f a) (fun _ => for_each f l)).
Qed.

End Preserves.

(** Goals [preserves I m], by the structure of [m]; the elementary
    steps are closed by the hypotheses at hand. *)
Ltac preserves_step :=
  first
    [ assumption
    | match goal with
      | H : forall x, Protocol.preserves _ _ |- _ => apply H
      end
    | apply preserves_bind; [|intros ?]
    | apply preserves_try_catch; [|intros ?]
    | apply preserves_when
    | apply preserves_for_each; intros ?
    | apply preserves_ret
    | apply preserves_throw
    | apply preserves_gets
    | match goal with
      | |- Protocol.preserves _ (match ?x with _ => _ end) => destruct x
      | |- Protocol.preserves _ (if ?x then _ else _) => destruct x
      end ].

Ltac preserves := repeat preserves_step.

Section Closed.
Import VideoCall Protocol.
Variable I : World -> Prop.
Hypothesis HI : closed I.

Lemma closed_call_step (c : Call) :
  is_send c = false -> preserves I (call c).
Proof. intros Hc w Hw. by apply (closed_call I HI). Qed.

Lemma closed_setCallStatus v : preserves I (setCallStatus v).
Proof. intros w Hw. by apply (closed_state I HI). Qed.

Lemma closed_setRemoteStream v : preserves I (setRemoteStream v).
Proof. intros w Hw. by apply (closed_state I HI). Qed.

Lemma closed_ws_send (m : SignalMessage) : preserves I (ws_send m).
Proof.
  intros w Hw. unfold ws_send. js_simpl.
  destruct (signalingSocket w) as [[u rs]|] eqn:Hws; [|exact Hw].
  destruct rs; cbn; try exact Hw.
  apply (closed_send I HI); [|exact Hw].
  unfold socket_open. by rewrite Hws.
Qed.

Lemma closed_cleanup_socket :
  preserves I
    (ws ← gets signalingSocket;
     match ws with
     | Some ws =>
         call ws_close;;
         modify (with_signalingSocket (Some (close_socket ws)))
     | None => mret tt
     end).
Proof.
  apply preserves_bind_gets. intros w Hw.
  destruct (signalingSocket w) as [ws|] eqn:Hws; [|exact Hw].
  cbn. apply (closed_ws_close I HI); [exact Hws|].
  by apply (closed_call I HI).
Qed.

Lemma closed_cleanup sc : preserves I (cleanup sc).
Proof.
  unfold cleanup.
  apply preserves_bind; [|intros _].
  - apply preserves_when, preserves_bind; [apply preserves_gets|].
    intros ts. apply preserves_for_each. intros i.
    apply preserves_bind; [by apply closed_call_step|]. intros _ w Hw.
    by apply (closed_stop I HI).
  - apply preserves_bind_gets. intros w Hw.
    apply preserves_bind_at; [|intros _; apply closed_cleanup_socket].
    destruct (peerConnection w) as [pc|] eqn:Hpc; [|exact Hw].
    cbn. apply (closed_pc_close I HI); [cbn; rewrite Hpc; eauto|].
    by apply (closed_call I HI).
Qed.

Lemma closed_createOffer rtc : preserves I (createOffer rtc).
Proof. unfold createOffer. pose proof closed_ws_send. preserves. Qed.

Lemma closed_handleOffer remote rtc : preserves I (handleOffer remote rtc).
Proof. unfold handleOffer. pose proof closed_ws_send. preserves. Qed.

Lemma closed_handleRemoteHangup sc : preserves I (handleRemoteHangup sc).
Proof.
  unfold handleRemoteHangup, toast_info.
  pose proof (closed_cleanup sc).
  pose proof (closed_call_step (navigate (-1)) eq_refl).
  pose proof (closed_call_step
                (toast "info" "Remote user ended the call") eq_refl).
  preserves.
Qed.

Lemma closed_endCall sc : preserves I (endCall sc).
Proof.
  unfold endCall.
  pose proof (closed_cleanup sc). pose proof (closed_ws_send hangup).
  pose proof (closed_call_step (navigate (-1)) eq_refl).
  preserves.
Qed.

Lemma closed_onicecandidate c : preserves I (onicecandidate c).
Proof. unfold onicecandidate. pose proof closed_ws_send. preserves. Qed.

Lemma closed_ontrack : preserves I ontrack.
Proof.
  unfold ontrack. pose proof closed_setCallStatus.
  pose proof closed_setRemoteStream. preserves.
Qed.

Lemma closed_onconnectionstatechange s :
  preserves I (onconnectionstatechange s).
Proof.
  unfold onconnectionstatechange. pose proof closed_setCallStatus. preserves.
Qed.

Lemma closed_onopen : preserves I onopen.
Proof.
  unfold onopen. pose proof closed_ws_send.
  pose proof (closed_call_step (setTimeout 500) eq_refl).
  assert (preserves I (modify (with_timers (fun pending => pending ++ [500%nat]))))
    by (intros w Hw; by apply (closed_timers I HI)).
  preserves.
Qed.

Lemma closed_onmessage sc data rtc : preserves I (onmessage sc data rtc).
Proof.
  unfold onmessage, handleAnswer, handleIceCandidate.
  pose proof (closed_createOffer rtc).
  pose proof (closed_handleOffer (sdp data) rtc).
  pose proof (closed_handleRemoteHangup sc).
  pose proof closed_setCallStatus.
  preserves.
Qed.

(** Every event but [mount] and the two toggles. *)
Lemma closed_handle ev w :
  is_mount ev = false -> is_toggle ev = false -> I w -> I (handle ev w).
Proof.
  intros Hm Ht Hw. destruct ev; try discriminate; cbn [handle]; unfold exec.
  - by apply closed_cleanup.
  - destruct (signalingSocket w) as [[u []]|] eqn:Hws; try done.
    apply closed_onopen. by eapply (closed_opened I HI).
  - destruct (bool_decide _); [by apply closed_onmessage | done].
  - destruct (bool_decide _); [|done].
    by apply (closed_call I HI).
  - destruct (bool_decide _); [|done]. by apply (closed_closed I HI).
  - destruct (bool_decide _); [by apply closed_onicecandidate | done].
  - destruct (bool_decide _); [by apply closed_ontrack | done].
  - destruct (bool_decide _);
      [by apply closed_onconnectionstatechange | done].
  - destruct (timers w); [done|].
    apply closed_createOffer. by apply (closed_timers I HI).
  - by apply closed_endCall.
Qed.

Hypothesis HT : closed_toggle I.

Lemma closed_toggleMute sc : preserves I (toggleMute sc).
Proof.
  unfold toggleMute.
  assert (forall i, preserves I (update_track flip_enabled i))
    by (intros i w Hw; by apply (closed_flip I HT)).
  assert (forall v, preserves I (setIsMuted v))
    by (intros v w Hw; by apply (closed_flags I HT)).
  preserves.
Qed.

Lemma closed_toggleVideo sc : preserves I (toggleVideo sc).
Proof.
  unfold toggleVideo.
  assert (forall i, preserves I (update_track flip_enabled i))
    by (intros i w Hw; by apply (closed_flip I HT)).
  assert (forall v, preserves I (setIsVideoOff v))
    by (intros v w Hw; by apply (closed_flags I HT)).
  preserves.
Qed.

(** Every event but [mount]. *)
Lemma closed_handle_all ev w : is_mount ev = false -> I w -> I (handle ev w).
Proof.
  intros Hm Hw. destruct (is_toggle ev) eqn:Ht; [|by apply closed_handle].
  destruct ev; try discriminate; cbn [handle]; unfold exec.
  - by apply closed_toggleMute.
  - by apply closed_toggleVideo.
Qed.

Lemma closed_run evs :
  forallb (fun ev => negb (is_mount ev)) evs = true ->
  forall w, I w -> I (run evs w).
Proof.
  induction evs as [|ev evs IH]; intros Hev w Hw; [exact Hw|].
  cbn in Hev. apply andb_true_iff in Hev as [Hm Hev].
  cbn. apply IH; [exact Hev|]. apply closed_handle_all; [|exact Hw].
  by destruct (is_mount ev).
Qed.

End Closed.

Section Frames.
Import VideoCall Protocol.

Lemma frames_app (cs cs' : list Call) :
  frames (cs ++ cs') = frames cs ++ frames cs'.
Proof. apply omap_app. Qed.

Lemma frames_record_other (c : Call) (w : World) :
  is_send c = false -> frames (calls (record c w)) = frames (calls w).
Proof.
  intros Hc. cbn. rewrite frames_app. destruct c; try discriminate;
    cbn; by rewrite app_nil_r.
Qed.

Lemma frames_record_send (m : SignalMessage) (w : World) :
  frames (calls (record (send m) w)) = frames (calls w) ++ [m].
Proof. cbn. by rewrite frames_app. Qed.

Lemma frames_track_stop (l : list nat) : frames (map track_stop l) = [].
Proof. induction l as [|i l IH]; [reflexivity | exact IH]. Qed.

Lemma close_socket_gone (ws : WebSocket) :
  match readyState (close_socket ws) with
  | CLOSING | CLOSED => True
  | _ => False
  end.
Proof. by destruct ws as [u []]. Qed.

Lemma close_socket_idempotent (ws : WebSocket) :
  close_socket (close_socket ws) = close_socket ws.
Proof. by destruct ws as [u []]. Qed.

(** What [cleanup] does, in one equation. *)
Lemma cleanup_spec (sc : Scope) (w : World) :
  cleanup sc w
  = (Normal tt,
     {| env := env w; state := state w;
        peerConnection :=
          (fun _ => {| pc_closed := true |}) <$> peerConnection w;
        signalingSocket := close_socket <$> signalingSocket w;
        tracks := if bool_decide (is_Some (sc_localStream sc))
                  then map stop (tracks w) else tracks w;
        timers := timers w;
        calls :=
          calls w
          ++ (if bool_decide (is_Some (sc_localStream sc))
              then map track_stop
                       (track_indices (fun _ => true) 0 (tracks w))
              else [])
          ++ match peerConnection w with
             | Some _ => [pc_close]
             | None => []
             end
          ++ match signalingSocket w with
             | Some _ => [ws_close]
             | None => []
             end |}).
Proof.
  unfold cleanup.
  destruct (bool_decide (is_Some (sc_localStream sc))).
  - js_simpl. rewrite for_each_stop. cbn. rewrite stop_every_track.
    destruct w as [e st [pc|] [ws|] ts tm cs];
      unfold with_signalingSocket, with_peerConnection, record; cbn;
      rewrite <- ?app_assoc, ?app_nil_r; reflexivity.
  - js_simpl. destruct w as [e st [pc|] [ws|] ts tm cs];
      unfold with_signalingSocket, with_peerConnection, record; cbn;
      rewrite <- ?app_assoc, ?app_nil_r; reflexivity.
Qed.

End Frames.

Section Silence.
Import VideoCall Protocol.

Lemma socket_gone_not_open w : socket_gone w = true -> socket_open w = false.
Proof.
  unfold socket_gone, socket_open.
  destruct (signalingSocket w) as [[u []]|]; done.
Qed.

(** "The socket is gone and the frames written so far are [fs]" survives
    every elementary step. *)
Lemma gone_closed (fs : list SignalMessage) :
  closed (fun w => socket_gone w = true /\ frames (calls w) = fs).
Proof.
  split.
  - intros f w _ H. exact H.
  - intros i w H. exact H.
  - intros w _ H. exact H.
  - intros ws w Hws [_ Hfs]. split; [|exact Hfs].
    unfold socket_gone. cbn. by destruct ws as [u []].
  - intros ws w Hws Hrs [Hgone _]. unfold socket_gone in Hgone.
    rewrite Hws, Hrs in Hgone. discriminate.
  - intros w [Hgone Hfs]. unfold set_readyState.
    destruct (signalingSocket w) as [ws|] eqn:Hws; [|by split].
    split; [reflexivity | exact Hfs].
  - intros f w H. exact H.
  - intros c w Hc [Hgone Hfs]. split; [exact Hgone|].
    by rewrite frames_record_other.
  - intros m w Hopen [Hgone _].
    rewrite (socket_gone_not_open w Hgone) in Hopen. discriminate.
Qed.

Lemma gone_closed_toggle (fs : list SignalMessage) :
  closed_toggle (fun w => socket_gone w = true /\ frames (calls w) = fs).
Proof. split; intros; assumption. Qed.

End Silence.

(** X1.  Once the signaling socket is gone (never created, or closed
    by [cleanup], or closed by the peer), the page writes no frame any
    more, whatever happens short of a new mount: not from a pending
    [createOffer] timer, not in answer to a frame that still arrives,
    not from the End Call button. *)
Theorem no_frame_once_socket_gone (evs : list VideoCall.Event)
    (w : VideoCall.World)
    (Hevs : forallb (fun ev => negb (Protocol.is_mount ev)) evs = true)
    (Hgone : Protocol.socket_gone w = true) :
  Protocol.frames (VideoCall.calls (VideoCall.run evs w))
  = Protocol.frames (VideoCall.calls w)
  /\ Protocol.socket_gone (VideoCall.run evs w) = true.
Proof.
  destruct (closed_run _ (gone_closed (Protocol.frames (VideoCall.calls w)))
              (gone_closed_toggle _) evs Hevs w (conj Hgone eq_refl))
    as [H1 H2].
  by split.
Qed.

Lemma no_frame_once_socket_gone_witness :
  let w := VideoCall.handle VideoCall.click_endCall
             (Samples.in_call Samples.farmerA) in
  let evs := [VideoCall.timeout (Some "sdp1");
              VideoCall.ws_message (Samples.frame "ready") (Some "sdp2");
              VideoCall.ws_message
                {| VideoCall.type := "offer"; VideoCall.sdp := Some "sdp3";
                   VideoCall.candidate := None |} (Some "sdp4");
              VideoCall.ice (Some "c1"); VideoCall.click_endCall;
              VideoCall.ws_closed] in
  VideoCall.timers w = [500%nat]
  /\ Protocol.frames (VideoCall.calls (VideoCall.run evs w))
     = [VideoCall.ready "farmer"; VideoCall.hangup].
Proof.
  intros w evs. split; [reflexivity|].
  rewrite (proj1 (no_frame_once_socket_gone evs w eq_refl eq_refl)).
  reflexivity.
Defined.

(** X2.  [cleanup] never throws and running it a second time changes
    no resource: the tracks, the peer connection, the socket, the React
    state and the timers are as the first run left them, and no frame
    is written by either run. *)
Theorem cleanup_idempotent (sc : VideoCall.Scope) (w : VideoCall.World) :
  let once := exec (VideoCall.cleanup sc) w in
  let twice := exec (VideoCall.cleanup sc) once in
  fst (VideoCall.cleanup sc w) = Normal tt
  /\ VideoCall.tracks twice = VideoCall.tracks once
  /\ VideoCall.peerConnection twice = VideoCall.peerConnection once
  /\ VideoCall.signalingSocket twice = VideoCall.signalingSocket once
  /\ VideoCall.state twice = VideoCall.state once
  /\ VideoCall.timers twice = VideoCall.timers once
  /\ Protocol.frames (VideoCall.calls twice)
     = Protocol.frames (VideoCall.calls w)
  /\ Protocol.socket_gone once = true.
Proof.
  cbv zeta. unfold exec. rewrite !cleanup_spec. cbn [fst snd].
  cbn [VideoCall.tracks VideoCall.peerConnection VideoCall.signalingSocket
       VideoCall.state VideoCall.timers VideoCall.calls].
  split; [reflexivity|].
  split.
  { destruct (bool_decide _); [|reflexivity].
    rewrite map_map. apply map_ext. by intros []. }
  split; [by destruct (VideoCall.peerConnection w)|].
  split.
  { destruct (VideoCall.signalingSocket w) as [ws|]; [|reflexivity].
    cbn. by rewrite close_socket_idempotent. }
  split; [reflexivity|]. split; [reflexivity|].
  split.
  { rewrite !frames_app.
    assert (Hz : forall (b : bool) l,
               Protocol.frames (if b then map VideoCall.track_stop l else [])
               = []) by (intros [] l; [apply frames_track_stop | reflexivity]).
    rewrite !Hz.
    destruct (VideoCall.peerConnection w), (VideoCall.signalingSocket w);
      cbn; by rewrite ?app_nil_r. }
  unfold Protocol.socket_gone. cbn.
  destruct (VideoCall.signalingSocket w) as [[u []]|]; reflexivity.
Qed.

Lemma endCall_spec (sc : VideoCall.Scope) (w : VideoCall.World) :
  VideoCall.endCall sc w
  = (Normal tt,
     VideoCall.record (VideoCall.navigate (-1))
       (exec (VideoCall.cleanup sc)
          (if VideoCall.socket_open w
           then VideoCall.record (VideoCall.send VideoCall.hangup) w
           else w))).
Proof.
  unfold VideoCall.endCall, VideoCall.ws_send, exec.
  destruct w as [e st pc [[u []]|] ts tm cs]; js_simpl; cbn;
    rewrite cleanup_spec; reflexivity.
Qed.

Lemma endCall_frames (sc : VideoCall.Scope) (w : VideoCall.World) :
  Protocol.frames (VideoCall.calls (exec (VideoCall.endCall sc) w))
  = Protocol.frames (VideoCall.calls w)
    ++ (if VideoCall.socket_open w then [VideoCall.hangup] else []).
Proof.
  unfold exec at 1. rewrite endCall_spec. cbn [snd].
  unfold exec. rewrite cleanup_spec. cbn [snd].
  rewrite frames_record_other by reflexivity.
  cbn [VideoCall.calls]. rewrite !frames_app.
  assert (Hz : forall (b : bool) l,
             Protocol.frames (if b then map VideoCall.track_stop l else [])
             = []) by (intros [] l; [apply frames_track_stop | reflexivity]).
  rewrite Hz.
  destruct (VideoCall.socket_open w); cbn [VideoCall.calls VideoCall.record];
    rewrite ?frames_app;
    destruct (VideoCall.peerConnection _), (VideoCall.signalingSocket _);
    cbn; by rewrite ?app_nil_r.
Qed.

(** X3.  The End Call button always works: whatever the state of the
    page (no stream yet, no socket, socket still connecting or already
    closed), [endCall] does not throw, writes ['hangup'] exactly when
    the socket is OPEN, stops every local track when the local stream
    is set, closes the peer connection, leaves the socket gone, and its
    last call is [navigate(-1)]. *)
Theorem endCall_always_tears_down (w : VideoCall.World) :
  let w' := VideoCall.handle VideoCall.click_endCall w in
  fst (VideoCall.endCall (VideoCall.latest_render w) w) = Normal tt
  /\ Protocol.frames (VideoCall.calls w')
     = Protocol.frames (VideoCall.calls w)
       ++ (if VideoCall.socket_open w then [VideoCall.hangup] else [])
  /\ VideoCall.tracks w'
     = (if bool_decide (is_Some (VideoCall.localStream (VideoCall.state w)))
        then map VideoCall.stop (VideoCall.tracks w)
        else VideoCall.tracks w)
  /\ VideoCall.peerConnection w'
     = (fun _ => {| VideoCall.pc_closed := true |})
         <$> VideoCall.peerConnection w
  /\ Protocol.socket_gone w' = true
  /\ last (VideoCall.calls w') = Some (VideoCall.navigate (-1)).
Proof.
  cbn [VideoCall.handle]. unfold exec at 1 2 3 4 5.
  rewrite endCall_spec. cbn [fst snd].
  split; [reflexivity|].
  unfold exec. rewrite cleanup_spec. cbn [snd].
  split.
  { pose proof (endCall_frames (VideoCall.latest_render w) w) as H.
    unfold exec in H at 1. rewrite endCall_spec in H. cbn [snd] in H.
    unfold exec in H. rewrite cleanup_spec in H. exact H. }
  split; [by destruct (VideoCall.socket_open w)|].
  split; [by destruct (VideoCall.socket_open w)|].
  split.
  { unfold Protocol.socket_gone. cbn.
    destruct (VideoCall.socket_open w); cbn;
      destruct (VideoCall.signalingSocket w) as [[u []]|]; reflexivity. }
  cbn [VideoCall.record VideoCall.calls]. apply last_snoc.
Qed.

Section Equipped.
Import VideoCall Protocol.

Lemma equipped_closed : closed equipped.
Proof.
  split; unfold equipped.
  - intros f w Hf H Hs. destruct (H Hs) as (Hpc & Hls & Hu).
    repeat split; [done| |done]. cbn. by rewrite (proj1 (Hf _)).
  - intros i w H. exact H.
  - intros w Hpc H Hs. destruct (H Hs) as (_ & Hls & Hu).
    repeat split; [cbn; eauto | done | done].
  - intros ws w Hws H _. apply H. rewrite Hws. eauto.
  - intros ws w Hws Hrs H _. unfold set_readyState. rewrite Hws.
    apply H. rewrite Hws. eauto.
  - intros w. unfold set_readyState.
    destruct (signalingSocket w) as [ws|] eqn:Hws; intros H;
      [|intros Hs; rewrite Hws in Hs; destruct Hs; discriminate].
    intros _. apply H. eauto.
  - intros f w H. exact H.
  - intros c w _ H. exact H.
  - intros m w _ H. exact H.
Qed.

Lemma equipped_closed_toggle : closed_toggle equipped.
Proof.
  split; unfold equipped.
  - intros i w H. exact H.
  - intros f w Hf H Hs. destruct (H Hs) as (Hpc & Hls & Hu).
    repeat split; [done| |done]. cbn. by rewrite Hf.
Qed.

Lemma equipped_mount gum w : equipped w -> equipped (handle (mount gum) w).
Proof.
  intros H. cbn [handle]. unfold exec, initializeCall.
  destruct gum as [stream|]; [|exact H].
  unfold connectSignaling. js_simpl. unfold equipped in *.
  destruct w as [[[u|] sid wsurl ti] st pc ws ts tm cs]; cbn in *.
  - intros _. repeat split; eauto.
  - intros Hs. destruct (H Hs) as (_ & _ & [? ?]). discriminate.
Qed.

End Equipped.

Section EquippedRun.
Import VideoCall Protocol.

Lemma run_cons ev evs w : run (ev :: evs) w = run evs (handle ev w).
Proof. reflexivity. Qed.

Lemma env_closed e : closed (fun w => env w = e).
Proof.
  split; intros; try assumption.
  all: unfold set_readyState;
    try destruct (signalingSocket _); assumption.
Qed.

Lemma env_closed_toggle e : closed_toggle (fun w => env w = e).
Proof. split; intros; assumption. Qed.

(** The hooks and the build do not change under the page. *)
Lemma env_handle ev w : env (handle ev w) = env w.
Proof.
  destruct (is_mount ev) eqn:Hm.
  - destruct ev as [gum| | | | | | | | | | | |]; try discriminate.
    destruct gum, w as [[[u|] sid wsurl ti] st pc ws ts tm cs]; reflexivity.
  - by apply (closed_handle_all _ (env_closed (env w))
                (env_closed_toggle (env w))).
Qed.

Lemma env_run evs : forall w, env (run evs w) = env w.
Proof.
  induction evs as [|ev evs IH]; intros w; [reflexivity|].
  rewrite run_cons, IH. apply env_handle.
Qed.

Lemma equipped_run evs : forall w, equipped w -> equipped (run evs w).
Proof.
  induction evs as [|ev evs IH]; intros w Hw; [exact Hw|].
  rewrite run_cons. apply IH.
  destruct (is_mount ev) eqn:Hm.
  - destruct ev; try discriminate. by apply equipped_mount.
  - by apply (closed_handle_all _ equipped_closed equipped_closed_toggle).
Qed.

End EquippedRun.

(** X4.  In every run of the page, a signaling socket is only there
    together with a peer connection, the local stream and a signed-in
    user: no frame or socket event can find the page without its peer
    connection. *)
Theorem socket_implies_peer_connection (e : VideoCall.Env)
    (evs : list VideoCall.Event)
    (Hs : is_Some (VideoCall.signalingSocket
                     (VideoCall.run evs (VideoCall.init e)))) :
  is_Some (VideoCall.peerConnection (VideoCall.run evs (VideoCall.init e)))
  /\ VideoCall.localStream
       (VideoCall.state (VideoCall.run evs (VideoCall.init e)))
     = Some VideoCall.UserMedia
  /\ is_Some (VideoCall.user e).
Proof.
  assert (Hinit : Protocol.equipped (VideoCall.init e))
    by (intros [? ?]; discriminate).
  destruct (equipped_run evs _ Hinit Hs) as (Hpc & Hls & Hu).
  rewrite env_run in Hu. by repeat split.
Qed.

Lemma socket_implies_peer_connection_witness :
  is_Some (VideoCall.signalingSocket (Samples.in_call Samples.vetB))
  /\ is_Some (VideoCall.peerConnection (Samples.in_call Samples.vetB)).
Proof.
  assert (Hs : is_Some (VideoCall.signalingSocket
                          (Samples.in_call Samples.vetB)))
    by (vm_compute; eauto).
  split; [exact Hs|].
  exact (proj1 (socket_implies_peer_connection
                  (Samples.page Samples.vetB)
                  [VideoCall.mount (Some Samples.camera); VideoCall.ws_open]
                  Hs)).
Defined.

Section OneFrame.
Import VideoCall Protocol.

Lemma createOffer_frames rtc w :
  frames (calls (exec (createOffer rtc) w)) = frames (calls w)
  \/ exists o, rtc = Some o
               /\ frames (calls (exec (createOffer rtc) w))
                  = frames (calls w) ++ [offer o].
Proof.
  destruct w as [e st [[[]]|] [[u []]|] ts tm cs], rtc as [o|];
    try (left; reflexivity).
  right. exists o. split; [reflexivity|]. apply frames_record_send.
Qed.

Lemma handleOffer_frames remote rtc w :
  frames (calls (exec (handleOffer remote rtc) w)) = frames (calls w)
  \/ exists a, rtc = Some a
               /\ frames (calls (exec (handleOffer remote rtc) w))
                  = frames (calls w) ++ [answer a].
Proof.
  destruct w as [e st [[[]]|] [[u []]|] ts tm cs], rtc as [a|], remote;
    try (left; reflexivity).
  right. exists a. split; [reflexivity|]. apply frames_record_send.
Qed.

Lemma handleRemoteHangup_frames sc w :
  frames (calls (exec (handleRemoteHangup sc) w)) = frames (calls w).
Proof.
  unfold exec, handleRemoteHangup, toast_info. js_simpl.
  destruct (toast_info_defined (env w)); [|reflexivity].
  cbn. rewrite cleanup_spec. cbn.
  rewrite !frames_app.
  assert (Hz : forall (b : bool) l,
             frames (if b then map track_stop l else []) = [])
    by (intros [] l; [apply frames_track_stop | reflexivity]).
  rewrite Hz.
  destruct (peerConnection w), (signalingSocket w); cbn;
    by rewrite ?app_nil_r.
Qed.

Lemma initializeCall_frames gum w :
  frames (calls (exec (initializeCall gum) w)) = frames (calls w).
Proof.
  destruct gum, w as [[[u|] sid wsurl ti] st pc ws ts tm cs];
    cbv -[frames app]; rewrite ?frames_app; cbn; by rewrite ?app_nil_r.
Qed.

Lemma onmessage_frames sc data rtc w :
  frames (calls (exec (onmessage sc data rtc) w)) = frames (calls w)
  \/ exists m, expected (ws_message data rtc) w = Some m
               /\ frames (calls (exec (onmessage sc data rtc) w))
                  = frames (calls w) ++ [m].
Proof.
  unfold exec, onmessage, expected. js_simpl.
  destruct (String.eqb (type data) "ready").
  { destruct (String.eqb (role (env w)) "farmer"); [|by left].
    destruct (createOffer_frames rtc w) as [H|(o & -> & H)]; [by left|].
    right. by exists (offer o). }
  destruct (String.eqb (type data) "offer").
  { destruct (handleOffer_frames (sdp data) rtc w) as [H|(a & -> & H)];
      [by left|].
    right. by exists (answer a). }
  left.
  destruct (String.eqb (type data) "answer"); [reflexivity|].
  destruct (String.eqb (type data) "ice-candidate"); [reflexivity|].
  destruct (String.eqb (type data) "hangup");
    [apply handleRemoteHangup_frames|].
  destruct (String.eqb (type data) "peer-disconnected"); reflexivity.
Qed.

End OneFrame.

Lemma handle_frames (ev : VideoCall.Event) (w : VideoCall.World) :
  Protocol.frames (VideoCall.calls (VideoCall.handle ev w))
  = Protocol.frames (VideoCall.calls w)
  \/ exists m, Protocol.expected ev w = Some m
               /\ Protocol.frames (VideoCall.calls (VideoCall.handle ev w))
                  = Protocol.frames (VideoCall.calls w) ++ [m].
Proof.
  destruct ev; cbn [VideoCall.handle].
  - left. apply initializeCall_frames.
  - left. unfold exec. rewrite cleanup_spec. cbn. rewrite !frames_app.
    destruct (VideoCall.peerConnection w), (VideoCall.signalingSocket w);
      cbn; by rewrite ?app_nil_r.
  - destruct w as [e st pc [[u []]|] ts tm cs]; try by left.
    right. exists (VideoCall.ready (VideoCall.role e)).
    split; [reflexivity|].
    unfold exec, VideoCall.onopen, VideoCall.ws_send. js_simpl. cbn.
    destruct (String.eqb (VideoCall.role e) "farmer"); cbn;
      rewrite ?frames_app; cbn; by rewrite ?app_nil_r.
  - destruct (bool_decide _); [apply onmessage_frames | by left].
  - left. destruct (bool_decide _); [|reflexivity].
    apply frames_record_other. reflexivity.
  - left. destruct (bool_decide _); [|reflexivity].
    unfold exec, VideoCall.onclose, VideoCall.set_readyState. cbn.
    by destruct (VideoCall.signalingSocket w).
  - destruct (bool_decide _); [|by left].
    destruct c as [cand|]; [|by left].
    destruct w as [e st pc [[u []]|] ts tm cs]; try by left.
    right. exists (VideoCall.ice_candidate cand).
    split; [reflexivity | apply frames_record_send].
  - left. by destruct (bool_decide _).
  - left. destruct (bool_decide _); [|reflexivity].
    unfold exec, VideoCall.onconnectionstatechange.
    by repeat destruct (String.eqb _ _).
  - destruct (VideoCall.timers w) as [|t tm]; [by left|].
    destruct (createOffer_frames rtc (VideoCall.with_timers (drop 1) w))
      as [H|(o & -> & H)]; [by left|].
    right. by exists (VideoCall.offer o).
  - rewrite endCall_frames.
    destruct (VideoCall.socket_open w); [|left; by rewrite app_nil_r].
    right. by exists VideoCall.hangup.
  - left. unfold exec. rewrite toggleMute_eq. cbn [snd].
    by destruct (bool_decide _).
  - left. unfold exec. rewrite toggleVideo_eq. cbn [snd].
    by destruct (bool_decide _).
Qed.

(** X5.  Handling one event writes at most one frame to the signaling
    socket, and which frame is fixed by the event: ['ready'] with the
    page's role when the socket opens, the created offer when the timer
    fires or a ['ready'] frame arrives, the created answer when an
    ['offer'] frame arrives, the candidate of an ICE event, ['hangup']
    on End Call; every other event (among them an arriving ['answer'],
    ['ice-candidate'], ['hangup'] or ['peer-disconnected'] frame, the
    toggles, mount and unmount) writes none. *)
Theorem one_frame_per_event (ev : VideoCall.Event) (w : VideoCall.World) :
  Protocol.frames (VideoCall.calls (VideoCall.handle ev w))
  = Protocol.frames (VideoCall.calls w)
  \/ exists m, Protocol.expected ev w = Some m
               /\ Protocol.frames (VideoCall.calls (VideoCall.handle ev w))
                  = Protocol.frames (VideoCall.calls w) ++ [m].
Proof.
  apply handle_frames.
Qed.

(** X6.  The offer/answer handshake of two pages in a call.  When the
    farmer's page receives the ['ready'] frame of the peer it writes
    exactly the offer it created and changes nothing else; the page
    that receives this ['offer'] frame writes exactly the answer it
    created and changes nothing else; the ['answer'] frame and an
    ['ice-candidate'] frame are consumed without any reply or change of
    the world. *)
Theorem offer_answer_handshake (farmer peer : VideoCall.World)
    (r : string) (o a : VideoCall.Sdp)
    (Hrole : VideoCall.role (VideoCall.env farmer) = "farmer")
    (Hfarmer : Protocol.connected farmer)
    (Hpeer : Protocol.connected peer) :
  VideoCall.handle
    (VideoCall.ws_message (Protocol.wire (VideoCall.ready r)) (Some o)) farmer
  = VideoCall.record (VideoCall.send (VideoCall.offer o)) farmer
  /\ VideoCall.handle
       (VideoCall.ws_message (Protocol.wire (VideoCall.offer o)) (Some a)) peer
     = VideoCall.record (VideoCall.send (VideoCall.answer a)) peer
  /\ (forall rtc c,
        VideoCall.handle
          (VideoCall.ws_message (Protocol.wire (VideoCall.answer a)) rtc)
          farmer = farmer
        /\ VideoCall.handle
             (VideoCall.ws_message
                (Protocol.wire (VideoCall.ice_candidate c)) rtc)
             farmer = farmer).
Proof.
  destruct Hfarmer as [Hfo Hfpc], Hpeer as [Hpo Hppc].
  apply socket_open_iff in Hfo as ([fu frs] & Hfs & Hfrs).
  apply socket_open_iff in Hpo as ([pu prs] & Hps & Hprs).
  cbn in Hfrs, Hprs. subst frs prs.
  destruct farmer as [fe fst fpc fws fts ftm fcs],
           peer as [pe pst ppc pws pts ptm pcs].
  cbn in *. subst.
  unfold exec, VideoCall.onmessage. js_simpl. cbn. rewrite Hrole. cbn.
  repeat split.
Qed.

Lemma offer_answer_handshake_witness :
  VideoCall.calls
    (VideoCall.handle
       (VideoCall.ws_message (Protocol.wire (VideoCall.ready "vet"))
          (Some "sdp-offer"))
       (Samples.in_call Samples.farmerA))
  = [VideoCall.send (VideoCall.ready "farmer"); VideoCall.setTimeout 500;
     VideoCall.send (VideoCall.offer "sdp-offer")]
  /\ VideoCall.calls
       (VideoCall.handle
          (VideoCall.ws_message (Protocol.wire (VideoCall.offer "sdp-offer"))
             (Some "sdp-answer"))
          (Samples.in_call Samples.vetB))
     = [VideoCall.send (VideoCall.ready "vet");
        VideoCall.send (VideoCall.answer "sdp-answer")].
Proof.
  destruct (offer_answer_handshake
              (Samples.in_call Samples.farmerA) (Samples.in_call Samples.vetB)
              "vet" "sdp-offer" "sdp-answer" eq_refl
              (conj eq_refl eq_refl) (conj eq_refl eq_refl))
    as (Hoffer & Hanswer & _).
  split; [exact (f_equal VideoCall.calls Hoffer)
         | exact (f_equal VideoCall.calls Hanswer)].
Defined.

Section ToggleFacts.
Import VideoCall Protocol.

Lemma flips_commute (ts : list MediaStreamTrack) :
  map (on_selected (is_kind audio) flip_enabled)
      (map (on_selected (is_kind video) flip_enabled) ts)
  = map (on_selected (is_kind video) flip_enabled)
        (map (on_selected (is_kind audio) flip_enabled) ts).
Proof.
  rewrite !map_map. apply map_ext. intros [[] en ed]; reflexivity.
Qed.

Lemma filter_map_fixed {A} (P : A -> Prop) `{forall x, Decision (P x)}
    (f : A -> A) (l : list A) :
  (forall x, P (f x) <-> P x) -> (forall x, P x -> f x = x) ->
  filter P (map f l) = filter P l.
Proof.
  intros Hiff Hfix. induction l as [|x l IH]; [reflexivity|].
  cbn [map]. rewrite !filter_cons.
  destruct (decide (P (f x))) as [Hfx|Hfx], (decide (P x)) as [Hx|Hx].
  - by rewrite IH, (Hfix x Hx).
  - destruct Hx. by apply Hiff.
  - destruct Hfx. by apply Hiff.
  - exact IH.
Qed.

Lemma other_kind_kept (k k' : TrackKind) (ts : list MediaStreamTrack) :
  k <> k' ->
  filter (fun t => is_kind k t = true)
         (map (on_selected (is_kind k') flip_enabled) ts)
  = filter (fun t => is_kind k t = true) ts.
Proof.
  intros Hk. apply filter_map_fixed.
  - intros [kd en ed]. by destruct k, k', kd.
  - intros [kd en ed]. destruct k, k', kd; try done; congruence.
Qed.

End ToggleFacts.

(** X7.  The two toggles are independent: muting and switching the
    camera off commute, muting changes no video track and not
    [isVideoOff], switching the camera changes no audio track and not
    [isMuted], and neither stops a track, touches the peer connection,
    the socket or the timers, or makes any call. *)
Theorem toggles_commute (w : VideoCall.World) :
  let muted := VideoCall.handle VideoCall.click_toggleMute w in
  let dark := VideoCall.handle VideoCall.click_toggleVideo w in
  VideoCall.handle VideoCall.click_toggleMute dark
  = VideoCall.handle VideoCall.click_toggleVideo muted
  /\ filter (fun t => VideoCall.is_kind VideoCall.video t = true)
            (VideoCall.tracks muted)
     = filter (fun t => VideoCall.is_kind VideoCall.video t = true)
              (VideoCall.tracks w)
  /\ filter (fun t => VideoCall.is_kind VideoCall.audio t = true)
            (VideoCall.tracks dark)
     = filter (fun t => VideoCall.is_kind VideoCall.audio t = true)
              (VideoCall.tracks w)
  /\ VideoCall.isVideoOff (VideoCall.state muted)
     = VideoCall.isVideoOff (VideoCall.state w)
  /\ VideoCall.isMuted (VideoCall.state dark)
     = VideoCall.isMuted (VideoCall.state w)
  /\ map VideoCall.ended (VideoCall.tracks muted)
     = map VideoCall.ended (VideoCall.tracks w)
  /\ map VideoCall.ended (VideoCall.tracks dark)
     = map VideoCall.ended (VideoCall.tracks w)
  /\ (VideoCall.peerConnection muted, VideoCall.signalingSocket muted,
      VideoCall.timers muted, VideoCall.calls muted)
     = (VideoCall.peerConnection w, VideoCall.signalingSocket w,
        VideoCall.timers w, VideoCall.calls w)
  /\ (VideoCall.peerConnection dark, VideoCall.signalingSocket dark,
      VideoCall.timers dark, VideoCall.calls dark)
     = (VideoCall.peerConnection w, VideoCall.signalingSocket w,
        VideoCall.timers w, VideoCall.calls w).
Proof.
  cbv zeta. cbn [VideoCall.handle]. unfold exec.
  rewrite !toggleMute_eq, !toggleVideo_eq.
  destruct w as [e [[[]|] rs cs mu vo] pc ws ts tm cl];
    unfold VideoCall.with_state, VideoCall.with_tracks;
    cbn -[map filter VideoCall.on_selected VideoCall.is_kind];
    [|by repeat split].
  split; [by rewrite flips_commute|].
  split; [by apply other_kind_kept|]. split; [by apply other_kind_kept|].
  split; [reflexivity|]. split; [reflexivity|].
  assert (Hended : forall k,
             map VideoCall.ended
               (map (VideoCall.on_selected (VideoCall.is_kind k)
                       VideoCall.flip_enabled) ts)
             = map VideoCall.ended ts).
  { intros k. rewrite map_map. apply map_ext.
    intros [kd en ed]. by destruct k, kd. }
  split; [apply Hended|]. split; [apply Hended|].
  split; reflexivity.
Qed.

Section Synced.
Import VideoCall Protocol.

Lemma synced_closed : closed synced.
Proof.
  split; unfold synced.
  - intros f w Hf H. cbn. eapply Forall_impl; [exact H|].
    intros t Ht. rewrite Ht. unfold shown_off. cbn.
    destruct (Hf (state w)) as (_ & -> & ->). reflexivity.
  - intros i w H. cbn. apply Forall_alter; [exact H|].
    intros t _ Ht. exact Ht.
  - intros w _ H. exact H.
  - intros ws w _ H. exact H.
  - intros ws w Hws _ H. unfold set_readyState. rewrite Hws. exact H.
  - intros w H. unfold set_readyState.
    by destruct (signalingSocket w).
  - intros f w H. exact H.
  - intros c w _ H. exact H.
  - intros m w _ H. exact H.
Qed.

Lemma synced_toggleMute w : synced w -> synced (handle click_toggleMute w).
Proof.
  unfold synced. cbn [handle]. unfold exec. rewrite toggleMute_eq. cbn [snd].
  destruct (bool_decide _); [|done]. cbn.
  intros H. apply Forall_map. eapply Forall_impl; [exact H|].
  intros [[] en ed]; unfold shown_off; cbn; intros ->;
    by rewrite ?negb_involutive.
Qed.

Lemma synced_toggleVideo w : synced w -> synced (handle click_toggleVideo w).
Proof.
  unfold synced. cbn [handle]. unfold exec. rewrite toggleVideo_eq. cbn [snd].
  destruct (bool_decide _); [|done]. cbn.
  intros H. apply Forall_map. eapply Forall_impl; [exact H|].
  intros [[] en ed]; unfold shown_off; cbn; intros ->;
    by rewrite ?negb_involutive.
Qed.

Lemma synced_run evs :
  forallb (fun ev => negb (is_mount ev)) evs = true ->
  forall w, synced w -> synced (run evs w).
Proof.
  induction evs as [|ev evs IH]; intros Hev w Hw; [exact Hw|].
  cbn in Hev. apply andb_true_iff in Hev as [Hm Hev].
  rewrite run_cons. apply IH; [exact Hev|].
  destruct (is_toggle ev) eqn:Ht.
  - destruct ev; try discriminate;
      [by apply synced_toggleMute | by apply synced_toggleVideo].
  - apply (closed_handle _ synced_closed); [|exact Ht|exact Hw].
    by destruct (is_mount ev).
Qed.

Lemma unstarted_closed : closed unstarted.
Proof.
  split; unfold unstarted.
  - intros f w Hf (Hls & Hm & Hv & Hts). cbn.
    destruct (Hf (state w)) as (-> & -> & ->). by repeat split.
  - intros i w (Hls & Hm & Hv & Hts). cbn. rewrite Hts. by repeat split.
  - intros w _ H. exact H.
  - intros ws w _ H. exact H.
  - intros ws w Hws _ H. unfold set_readyState. rewrite Hws. exact H.
  - intros w H. unfold set_readyState.
    by destruct (signalingSocket w).
  - intros f w H. exact H.
  - intros c w _ H. exact H.
  - intros m w _ H. exact H.
Qed.

Lemma unstarted_run evs :
  forallb (fun ev => negb (is_mount ev)) evs = true ->
  forall w, unstarted w -> unstarted (run evs w).
Proof.
  induction evs as [|ev evs IH]; intros Hev w Hw; [exact Hw|].
  cbn in Hev. apply andb_true_iff in Hev as [Hm Hev].
  rewrite run_cons. apply IH; [exact Hev|].
  destruct (is_toggle ev) eqn:Ht.
  - destruct Hw as (Hls & Hmu & Hv & Hts).
    destruct ev; try discriminate; cbn [handle]; unfold exec;
      rewrite ?toggleMute_eq, ?toggleVideo_eq; cbn [snd latest_render
        sc_localStream]; rewrite Hls; by repeat split.
  - apply (closed_handle _ unstarted_closed); [|exact Ht|exact Hw].
    by destruct (is_mount ev).
Qed.

Lemma synced_mount ts w :
  unstarted w -> Forall (fun t => enabled t = true) ts ->
  synced (handle (mount (Some ts)) w).
Proof.
  intros (Hls & Hmu & Hv & Hts) Hen. unfold synced.
  destruct w as [[[u|] sid wsurl ti] [ls rs cs mu vo] pc ws tr tm cl];
    cbn in *; subst; (eapply Forall_impl; [exact Hen|]);
    intros [[] en ed]; cbn; by intros ->.
Qed.

End Synced.

(** X8.  The two buttons tell the truth.  In a run of the page with one
    mount, where [getUserMedia] hands over enabled tracks, at every
    moment each audio track is enabled exactly when [isMuted] is false
    and each video track exactly when [isVideoOff] is false, whatever
    is clicked and whatever arrives before or after. *)
Theorem buttons_show_track_state (e : VideoCall.Env)
    (before after : list VideoCall.Event)
    (stream : list VideoCall.MediaStreamTrack)
    (Hbefore : forallb (fun ev => negb (Protocol.is_mount ev)) before = true)
    (Hafter : forallb (fun ev => negb (Protocol.is_mount ev)) after = true)
    (Hstream : Forall (fun t => VideoCall.enabled t = true) stream) :
  let w := VideoCall.run (before ++ VideoCall.mount (Some stream) :: after)
             (VideoCall.init e) in
  Forall (fun t =>
            VideoCall.enabled t
            = negb (match VideoCall.kind t with
                    | VideoCall.audio => VideoCall.isMuted (VideoCall.state w)
                    | VideoCall.video =>
                        VideoCall.isVideoOff (VideoCall.state w)
                    end))
         (VideoCall.tracks w).
Proof.
  cbv zeta. unfold VideoCall.run. rewrite foldl_app. cbn [foldl].
  apply (synced_run after Hafter).
  apply synced_mount; [|exact Hstream].
  apply (unstarted_run before Hbefore). by repeat split.
Qed.

Lemma buttons_show_track_state_witness :
  let w := VideoCall.run
             ([VideoCall.click_toggleMute]
              ++ VideoCall.mount (Some Samples.camera)
                 :: [VideoCall.ws_open; VideoCall.click_toggleVideo;
                     VideoCall.click_toggleMute; VideoCall.click_toggleVideo;
                     VideoCall.click_endCall])
             (VideoCall.init (Samples.page Samples.vetB)) in
  Forall (fun t =>
            VideoCall.enabled t
            = negb (match VideoCall.kind t with
                    | VideoCall.audio => VideoCall.isMuted (VideoCall.state w)
                    | VideoCall.video =>
                        VideoCall.isVideoOff (VideoCall.state w)
                    end))
         (VideoCall.tracks w)
  /\ VideoCall.isMuted (VideoCall.state w) = true
  /\ VideoCall.isVideoOff (VideoCall.state w) = false.
Proof.
  split; [|split; reflexivity].
  exact (buttons_show_track_state (Samples.page Samples.vetB)
           [VideoCall.click_toggleMute]
           [VideoCall.ws_open; VideoCall.click_toggleVideo;
            VideoCall.click_toggleMute; VideoCall.click_toggleVideo;
            VideoCall.click_endCall]
           Samples.camera eq_refl eq_refl
           ltac:(repeat constructor)).
Defined.

(** * The routes *)

(** X9.  A page that needs a sign-in is shown only when loading is over
    and a user is signed in, and a dashboard only to a user whose role
    is the dashboard's: no route shows the farmer, vet or admin
    dashboard to a user of another role. *)
Theorem dashboards_by_role (r : Routing.Route) (loading : bool)
    (user : option User) (page : Routing.Page)
    (Hshown : Routing.element r loading user = Routing.Show page)
    (Hpage : Routing.needs_sign_in page = true) :
  loading = false
  /\ exists u, user = Some u
               /\ forall role, Routing.dashboard_of page = Some role ->
                               user_role u = role.
Proof.
  destruct r; cbn in Hshown; try (injection Hshown as <-; discriminate);
    try discriminate;
    unfold Routing.ProtectedRoute in Hshown;
    (destruct loading; [discriminate|]);
    (destruct user as [u|]; [|discriminate]);
    (split; [reflexivity|]); exists u; (split; [reflexivity|]);
    cbn in Hshown;
    try (destruct (String.eqb_spec (user_role u) "farmer") as [Hr|];
         [|discriminate]);
    try (destruct (String.eqb_spec (user_role u) "vet") as [Hr|];
         [|discriminate]);
    try (destruct (String.eqb_spec (user_role u) "admin") as [Hr|];
         [|discriminate]);
    injection Hshown as <-; cbn; intros role Hrole; congruence.
Qed.

Lemma dashboards_by_role_witness :
  Routing.element Routing.vet false (Some Samples.vetB)
  = Routing.Show Routing.VetDashboardPage
  /\ Routing.element Routing.farmer false (Some Samples.vetB)
     = Routing.Navigate "/unauthorized"
  /\ user_role Samples.vetB = "vet".
Proof.
  split; [reflexivity|]. split; [reflexivity|].
  destruct (dashboards_by_role Routing.vet false (Some Samples.vetB)
              Routing.VetDashboardPage eq_refl eq_refl)
    as (_ & u & Hu & Hrole).
  injection Hu as <-. exact (Hrole "vet" eq_refl).
Defined.



(** * The dashboards *)

(** Lookups in object literals. *)
Ltac map_lookup :=
  repeat first
    [ rewrite lookup_insert_eq
    | rewrite lookup_insert_ne by done
    | rewrite lookup_singleton_eq ].

(** X11.  [loadReports] sends a filter exactly when it is set: the
    query has the key [status_filter] (resp. [priority_filter]) with
    the chosen value when the status (resp. priority) filter is not
    empty, and has no other key; an empty filter is never sent. *)
Theorem loadReports_sends_set_filters (f : VetCases.Filters)
    (k v : string) :
  VetCases.loadReports_params f !! k = Some v
  <-> v <> ""
      /\ ((k = "status_filter" /\ v = VetCases.status f)
          \/ (k = "priority_filter" /\ v = VetCases.priority f)).
Proof.
  unfold VetCases.loadReports_params.
  destruct (String.eqb_spec (VetCases.status f) "") as [Hs|Hs],
           (String.eqb_spec (VetCases.priority f) "") as [Hp|Hp].
  - rewrite lookup_empty. split; [discriminate|].
    intros (Hv & [[_ ->] | [_ ->]]); contradiction.
  - destruct (decide (k = "priority_filter")) as [->|Hk].
    + rewrite lookup_insert_eq. split.
      * intros [= <-]. split; [exact Hp | by right].
      * intros (Hv & [[? _] | [_ ->]]); [discriminate | reflexivity].
    + rewrite lookup_insert_ne by done. rewrite lookup_empty.
      split; [discriminate|].
      intros (Hv & [[_ ->] | [? _]]); contradiction.
  - destruct (decide (k = "status_filter")) as [->|Hk].
    + rewrite lookup_insert_eq. split.
      * intros [= <-]. split; [exact Hs | by left].
      * intros (Hv & [[_ ->] | [? _]]); [reflexivity | discriminate].
    + rewrite lookup_insert_ne by done. rewrite lookup_empty.
      split; [discriminate|].
      intros (Hv & [[? _] | [_ ->]]); contradiction.
  - destruct (decide (k = "priority_filter")) as [->|Hk].
    + rewrite lookup_insert_eq. split.
      * intros [= <-]. split; [exact Hp | by right].
      * intros (Hv & [[? _] | [_ ->]]); [discriminate | reflexivity].
    + rewrite lookup_insert_ne by done.
      destruct (decide (k = "status_filter")) as [->|Hk'].
      * rewrite lookup_insert_eq. split.
        -- intros [= <-]. split; [exact Hs | by left].
        -- intros (Hv & [[_ ->] | [? _]]); [reflexivity | discriminate].
      * rewrite lookup_insert_ne by done. rewrite lookup_empty.
        split; [discriminate|].
        intros (Hv & [[? _] | [? _]]); contradiction.
Qed.

Section CaseForm.
Import VetCases.

Lemma or_empty_spec (a : option string) :
  or_empty a = match a with Some s => s | None => "" end.
Proof.
  unfold or_empty, or_else. destruct a as [s|]; [|reflexivity].
  by destruct (String.eqb_spec s "") as [->|].
Qed.

End CaseForm.

(** X12.  Selecting a case fills the whole form from the server's
    answer and from nothing else, so nothing typed for the previous
    case stays in it.  The diagnosis field takes the vet's diagnosis
    when there is a non-empty one, otherwise the label of the AI
    prediction, otherwise it is empty.  When the request fails, the
    form is left as it was. *)
Theorem select_fills_form (reportId : string) (data : VetCases.Report)
    (f f' : VetCases.Form) :
  let filled := snd (VetCases.handleSelectReport reportId (Some data) f) in
  snd (VetCases.handleSelectReport reportId (Some data) f') = filled
  /\ VetCases.selectedReport filled = Some data
  /\ VetCases.diagnosis filled
     = match VetCases.data_diagnosis data with
       | Some d =>
           if String.eqb d "" then
             match VetCases.ai_prediction data ≫= VetCases.disease_label with
             | Some l => l
             | None => ""
             end
           else d
       | None =>
           match VetCases.ai_prediction data ≫= VetCases.disease_label with
           | Some l => l
           | None => ""
           end
       end
  /\ VetCases.vetNotes filled
     = match VetCases.vet_notes data with Some s => s | None => "" end
  /\ VetCases.treatment filled
     = match VetCases.data_treatment data with Some s => s | None => "" end
  /\ snd (VetCases.handleSelectReport reportId None f) = f.
Proof.
  cbv zeta. cbn.
  split; [reflexivity|]. split; [reflexivity|].
  split.
  { rewrite or_empty_spec. unfold VetCases.or_else.
    destruct (VetCases.data_diagnosis data) as [d|]; [|reflexivity].
    by destruct (String.eqb d ""). }
  split; [apply or_empty_spec|]. split; [apply or_empty_spec | reflexivity].
Qed.

Section SaveCase.
Import VetCases.

Lemma patches_loadReports filters loaded :
  patches (loadReports filters loaded) = [].
Proof. by destruct loaded. Qed.

Lemma handleUpdateReport_patches filters saved loaded f :
  patches (fst (handleUpdateReport filters saved loaded f))
  = match selectedReport f with
    | Some r => [("/reports/" +:+ id r, update_body f)]
    | None => []
    end.
Proof.
  unfold handleUpdateReport. destruct (selectedReport f); [|reflexivity].
  destruct saved, loaded; reflexivity.
Qed.

Lemma handleCloseCase_patches filters saved loaded f :
  patches (fst (handleCloseCase filters saved loaded f))
  = match selectedReport f with
    | Some r => [("/reports/" +:+ id r, close_body f)]
    | None => []
    end.
Proof.
  unfold handleCloseCase. destruct (selectedReport f); [|reflexivity].
  destruct saved, loaded; reflexivity.
Qed.

End SaveCase.

(** X13.  Saving a case.  Without a selected case, Update and Close
    send nothing.  A save that succeeds deselects the case and keeps
    the typed text, so that a second click on either button sends no
    second PATCH; a save that fails leaves the form as it was, so that
    the same request can be sent again. *)
Theorem case_saved_once (filters : VetCases.Filters)
    (loaded saved' loaded' : bool) (f : VetCases.Form) :
  let updated := snd (VetCases.handleUpdateReport filters true loaded f) in
  let closed := snd (VetCases.handleCloseCase filters true loaded f) in
  updated = VetCases.deselect f
  /\ closed = VetCases.deselect f
  /\ VetCases.handleUpdateReport filters saved' loaded' (VetCases.deselect f)
     = ([], VetCases.deselect f)
  /\ VetCases.handleCloseCase filters saved' loaded' (VetCases.deselect f)
     = ([], VetCases.deselect f)
  /\ snd (VetCases.handleUpdateReport filters false loaded f) = f
  /\ snd (VetCases.handleCloseCase filters false loaded f) = f
  /\ VetCases.patches
       (fst (VetCases.handleUpdateReport filters false loaded f))
     = VetCases.patches
         (fst (VetCases.handleUpdateReport filters true loaded f))
  /\ VetCases.patches (fst (VetCases.handleCloseCase filters false loaded f))
     = VetCases.patches
         (fst (VetCases.handleCloseCase filters true loaded f)).
Proof.
  cbv zeta.
  unfold VetCases.handleUpdateReport, VetCases.handleCloseCase.
  destruct f as [[r|] vn dg tr], loaded; repeat split.
Qed.

(** X14.  Closing a case right after selecting it.  Exactly one PATCH
    is sent, to the report the server returned; it marks the case
    completed; its [diagnosis] and [final_disease_label] are both the
    diagnosis field filled by the selection (the vet's diagnosis, or
    else the AI label), and its prescription is
    ['Prescription for <diagnosis>: <treatment>']. *)
Theorem select_then_close (reportId : string) (data : VetCases.Report)
    (f : VetCases.Form) (filters : VetCases.Filters) (saved loaded : bool) :
  let filled := snd (VetCases.handleSelectReport reportId (Some data) f) in
  exists body,
    VetCases.patches
      (fst (VetCases.handleCloseCase filters saved loaded filled))
    = [("/reports/" +:+ VetCases.id data, body)]
    /\ body !! "status" = Some (Dashboards.JString "completed")
    /\ body !! "diagnosis"
       = Some (Dashboards.JString (VetCases.diagnosis filled))
    /\ body !! "final_disease_label" = body !! "diagnosis"
    /\ body !! "treatment"
       = Some (Dashboards.JString
                 match VetCases.data_treatment data with
                 | Some s => s
                 | None => ""
                 end)
    /\ body !! "prescription"
       = Some (Dashboards.JString
                 ("Prescription for " +:+ VetCases.diagnosis filled +:+ ": "
                    +:+ VetCases.treatment filled)).
Proof.
  cbv zeta. eexists. rewrite handleCloseCase_patches. cbn -[insert lookup].
  split; [reflexivity|]. unfold VetCases.close_body. cbn -[insert lookup].
  repeat split; map_lookup; try reflexivity.
  by rewrite or_empty_spec.
Qed.

Section ReportForm.
Import FarmerForm.

Lemma getAll_app key (a b : FormData) :
  getAll key (a ++ b) = getAll key a ++ getAll key b.
Proof. apply omap_app. Qed.

Lemma getAll_images (files : list File) :
  getAll "images" (map (fun image => ("images", file image)) files)
  = map file files.
Proof. induction files as [|x l IH]; [reflexivity|]. cbn. by f_equal. Qed.

Lemma getAll_images_other key (files : list File) :
  String.eqb "images" key = false ->
  getAll key (map (fun image => ("images", file image)) files) = [].
Proof.
  intros Hk. induction files as [|x l IH]; [reflexivity|].
  cbn -[String.eqb]. by rewrite Hk.
Qed.

End ReportForm.

(** X15.  The report form of the farmer.  What is posted holds the
    symptom text and the crop type once each and the selected images
    under the key ['images'], all of them and in the order selected;
    choosing files replaces the earlier choice.  A submit that succeeds
    empties and hides the form; one that fails keeps everything the
    farmer entered; in both cases what is posted is built from the form
    as it was. *)
Theorem report_form_round_trip (f : FarmerForm.ReportForm)
    (files : list FarmerForm.File) (created : bool) :
  let data := FarmerForm.formData f in
  FarmerForm.getAll "images" data = map FarmerForm.file (FarmerForm.images f)
  /\ FarmerForm.getAll "text_symptoms" data
     = [FarmerForm.text (FarmerForm.symptomText f)]
  /\ FarmerForm.getAll "crop_type" data
     = [FarmerForm.text (FarmerForm.cropType f)]
  /\ length data = 2 + length (FarmerForm.images f)
  /\ FarmerForm.getAll "images"
       (FarmerForm.formData (FarmerForm.handleImageChange files f))
     = map FarmerForm.file files
  /\ head (fst (FarmerForm.handleCreateReport created f))
     = Some (FarmerForm.post "/reports/" data "multipart/form-data")
  /\ snd (FarmerForm.handleCreateReport false f) = f
  /\ snd (FarmerForm.handleCreateReport true f)
     = {| FarmerForm.showReportForm := false; FarmerForm.symptomText := "";
          FarmerForm.images := []; FarmerForm.cropType := "" |}.
Proof.
  cbv zeta. unfold FarmerForm.formData.
  split; [rewrite getAll_app; apply getAll_images|].
  split; [rewrite getAll_app, getAll_images_other by reflexivity;
          reflexivity|].
  split; [rewrite getAll_app, getAll_images_other by reflexivity;
          reflexivity|].
  split; [rewrite length_app, length_map; reflexivity|].
  split; [rewrite getAll_app; apply getAll_images|].
  split; [by destruct created|]. split; reflexivity.
Qed.

(** X16.  The call page is entered only after the server said yes.
    [handleConnectVet] navigates exactly when the session was created,
    and then to the call page of the session id the server returned
    and of the report; [joinCall] navigates exactly when the join was
    accepted; without a signed-in user neither sends a request nor
    navigates. *)
Theorem call_page_entered_after_success (user : option User)
    (reportId sessionId to : string)
    (created : Dashboards.Request -> option string)
    (joined : Dashboards.Request -> bool) :
  (In (Dashboards.navigate to)
      (Dashboards.handleConnectVet user reportId created)
   <-> exists u sid,
         user = Some u
         /\ created (Dashboards.createSession u reportId) = Some sid
         /\ to = "/video-call?session=" +:+ sid +:+ "&report=" +:+ reportId)
  /\ (In (Dashboards.navigate to)
         (Dashboards.joinCall user sessionId reportId joined)
      <-> exists u,
            user = Some u
            /\ joined (Dashboards.joinSession u sessionId) = true
            /\ to = "/video-call?session=" +:+ sessionId
                      +:+ "&report=" +:+ reportId)
  /\ Dashboards.handleConnectVet None reportId created
     = [Dashboards.toast "error" "Failed to connect. Please try again."]
  /\ Dashboards.joinCall None sessionId reportId joined
     = [Dashboards.toast "error" "Failed to join call"].
Proof.
  split; [|split; [|split; reflexivity]].
  - unfold Dashboards.handleConnectVet. destruct user as [u|].
    + destruct (created (Dashboards.createSession u reportId)) as [sid|] eqn:Hc.
      * cbn. split.
        -- intros [?|[[= <-]|[?|[]]]]; try discriminate. by exists u, sid.
        -- intros (u' & sid' & [= <-] & Hc' & ->).
           rewrite Hc in Hc'. injection Hc' as <-. right. by left.
      * cbn. split.
        -- intros [?|[?|[]]]; discriminate.
        -- intros (u' & sid' & [= <-] & Hc' & _). congruence.
    + cbn. split; [intros [?|[]]; discriminate|].
      intros (? & ? & ? & _); discriminate.
  - unfold Dashboards.joinCall. destruct user as [u|].
    + destruct (joined (Dashboards.joinSession u sessionId)) eqn:Hj.
      * cbn. split.
        -- intros [?|[[= <-]|[?|[]]]]; try discriminate. by exists u.
        -- intros (u' & [= <-] & _ & ->). right. by left.
      * cbn. split.
        -- intros [?|[?|[]]]; discriminate.
        -- intros (u' & [= <-] & Hj' & _). congruence.
    + cbn. split; [intros [?|[]]; discriminate|].
      intros (? & ? & _); discriminate.
Qed.

Section Bookkeeping.
Import Dashboards Reconnects.


End Bookkeeping.


Section SocketLeak.
Import Dashboards VetSocket.
Variable WS_URL : string.
Variable u : User.

Lemma run_cleanup_closed p :
  well_numbered p ->
  well_numbered (run_cleanup p)
  /\ net (run_cleanup p) = net p
  /\ wsConnection (run_cleanup p) = wsConnection p.
Proof.
  intros Hp. pose proof Hp as (Hc & Hw & Hk). unfold run_cleanup.
  destruct (cleanup p) as [[i|]|] eqn:Hcl; try by split.
  split; [|by split]. split; [|by split]. cbn.
  apply Forall_app. split; [exact Hc|]. constructor; [|constructor].
  by apply Hk.
Qed.

Lemma well_numbered_handle ev p :
  well_numbered p -> well_numbered (handle WS_URL u ev p).
Proof.
  intros Hp. destruct ev; cbn [handle].
  - destruct (run_cleanup_closed p Hp) as ((Hc & Hw & Hk) & Hnet & Hws).
    destruct Hp as (_ & Hw0 & _).
    repeat split; cbn; rewrite length_app; cbn.
    + eapply Forall_impl; [exact Hc|]. cbn. intros; lia.
    + intros i [= <-]. lia.
    + intros i [= Hi]. rewrite Hnet. specialize (Hw0 i Hi). lia.
  - destruct (run_cleanup_closed p Hp) as ((Hc & Hw & Hk) & Hnet & Hws).
    repeat split; cbn; [exact Hc | exact Hw | discriminate].
  - destruct (bool_decide _); [|exact Hp]. exact Hp.
  - destruct (pending (net p)) as [|t rest]; [exact Hp|].
    destruct Hp as (Hc & Hw & Hk).
    repeat split; cbn; rewrite length_app; cbn.
    + eapply Forall_impl; [exact Hc|]. cbn. intros; lia.
    + intros i [= <-]. lia.
    + intros i Hi. specialize (Hk i Hi). lia.
Qed.

Lemma well_numbered_run evs :
  forall p, well_numbered p -> well_numbered (run WS_URL u evs p).
Proof.
  induction evs as [|ev evs IH]; intros p Hp; [exact Hp|].
  cbn. apply IH. by apply well_numbered_handle.
Qed.

(** Between two runs of the effect nothing is closed by the page and the
    registered cleanup stays; sockets are only added. *)
Lemma quiet_run mid :
  forallb (fun ev => negb (is_effect ev)) mid = true ->
  forall p,
    closed_by_page (run WS_URL u mid p) = closed_by_page p
    /\ cleanup (run WS_URL u mid p) = cleanup p
    /\ (length (sockets (net p))
        <= length (sockets (net (run WS_URL u mid p))))%nat.
Proof.
  induction mid as [|ev mid IH]; intros Hmid p; [by repeat split|].
  cbn in Hmid. apply andb_true_iff in Hmid as [Hev Hmid].
  change (run WS_URL u (ev :: mid) p)
    with (run WS_URL u mid (handle WS_URL u ev p)).
  destruct (IH Hmid (handle WS_URL u ev p)) as (H1 & H2 & H3).
  rewrite H1, H2.
  destruct ev; try discriminate; cbn [handle] in *.
  - destruct (bool_decide _); cbn in *; by repeat split.
  - destruct (pending (net p)); cbn in *; [by repeat split|].
    rewrite length_app in H3. cbn in H3. repeat split; lia.
Qed.

End SocketLeak.

(** X18.  The cleanup of the notification effect never closes the
    socket its own effect run opened.  The cleanup closes over the
    [wsConnection] of the render it belongs to, which is the socket
    stored before this run (nothing at the first run).  So when the
    dashboard unmounts, whatever happened before and whatever timers
    and close events came in between, the socket opened by the last
    effect run has not been closed by the page; and the close event of
    any socket still schedules a reconnect after the unmount. *)
Theorem effect_cleanup_misses_own_socket (WS_URL : string) (u : User)
    (evs mid : list VetSocket.Event)
    (Hmid : forallb (fun ev => negb (VetSocket.is_effect ev)) mid = true) :
  let before := VetSocket.run WS_URL u evs VetSocket.start in
  let opened := length (Dashboards.sockets (VetSocket.net before)) in
  let after := VetSocket.run WS_URL u
                 (VetSocket.effect :: mid ++ [VetSocket.unmount]) before in
  Dashboards.sockets (VetSocket.net after) !! opened
  = Some (WS_URL +:+ "/ws/" +:+ id u)
  /\ ~ In opened (VetSocket.closed_by_page after)
  /\ forall i,
       (i < length (Dashboards.sockets (VetSocket.net after)))%nat ->
       Dashboards.pending
         (VetSocket.net
            (VetSocket.handle WS_URL u (VetSocket.close_event i) after))
       = Dashboards.pending (VetSocket.net after) ++ [3000%nat].
Proof.
  cbv zeta.
  set (before := VetSocket.run WS_URL u evs VetSocket.start).
  assert (Hwn : VetSocket.well_numbered before).
  { apply well_numbered_run. repeat split; [constructor | discriminate..]. }
  set (p1 := VetSocket.handle WS_URL u VetSocket.effect before).
  assert (Hafter : VetSocket.run WS_URL u
                     (VetSocket.effect :: mid ++ [VetSocket.unmount]) before
                   = VetSocket.handle WS_URL u VetSocket.unmount
                       (VetSocket.run WS_URL u mid p1)).
  { unfold VetSocket.run. cbn [foldl]. by rewrite foldl_app. }
  rewrite !Hafter. clear Hafter.
  destruct (quiet_run WS_URL u mid Hmid p1) as (Hcl & Hcu & Hlen).
  set (p2 := VetSocket.run WS_URL u mid p1) in *.
  destruct (run_cleanup_closed before Hwn) as ((Hc & _ & _) & Hnet & _).
  destruct Hwn as (_ & Hw0 & _).
  assert (Hsock1 : Dashboards.sockets (VetSocket.net p1)
                   = Dashboards.sockets (VetSocket.net before)
                     ++ [WS_URL +:+ "/ws/" +:+ id u])
    by (cbn; by rewrite Hnet).
  assert (Hnet3 : VetSocket.net
                    (VetSocket.handle WS_URL u VetSocket.unmount p2)
                  = VetSocket.net p2).
  { cbn. unfold VetSocket.run_cleanup.
    by destruct (VetSocket.cleanup p2) as [[i|]|]. }
  assert (Hmono : forall evs p i x,
             Dashboards.sockets (VetSocket.net p) !! i = Some x ->
             Dashboards.sockets
               (VetSocket.net (VetSocket.run WS_URL u evs p)) !! i = Some x).
  { clear. induction evs as [|ev evs IH]; intros p i x Hi; [exact Hi|].
    cbn. apply IH. destruct ev; cbn.
    - unfold VetSocket.run_cleanup.
      destruct (VetSocket.cleanup p) as [[j|]|]; cbn;
        by apply lookup_app_l_Some.
    - unfold VetSocket.run_cleanup.
      by destruct (VetSocket.cleanup p) as [[j|]|].
    - by destruct (bool_decide _).
    - destruct (Dashboards.pending (VetSocket.net p)); [exact Hi|].
      cbn. by apply lookup_app_l_Some. }
  split.
  { rewrite Hnet3. apply Hmono. rewrite Hsock1.
    rewrite lookup_app_r by lia. by rewrite Nat.sub_diag. }
  split.
  { cbn. unfold VetSocket.run_cleanup. rewrite Hcu.
    assert (Hclosed1 : Forall
              (fun i => (i < length (Dashboards.sockets
                                       (VetSocket.net before)))%nat)
              (VetSocket.closed_by_page p1)).
    { rewrite Hnet in Hc. exact Hc. }
    rewrite Forall_forall in Hclosed1.
    cbn [VetSocket.cleanup p1 VetSocket.handle].
    destruct (VetSocket.wsConnection before) as [j|] eqn:Hj; cbn;
      rewrite Hcl; intros Hin.
    - apply in_app_or in Hin as [Hin|[Heq|[]]].
      + apply list_elem_of_In, Hclosed1 in Hin. lia.
      + specialize (Hw0 _ eq_refl). lia.
    - apply list_elem_of_In, Hclosed1 in Hin. lia. }
  intros i Hi.
  set (p3 := VetSocket.handle WS_URL u VetSocket.unmount p2) in *.
  cbn [VetSocket.handle].
  rewrite bool_decide_eq_true_2 by exact Hi. reflexivity.
Qed.

Lemma effect_cleanup_misses_own_socket_witness :
  let after :=
    VetSocket.run "ws://localhost:8000" Samples.vetB
      ([VetSocket.effect; VetSocket.effect]
       ++ VetSocket.effect
          :: [VetSocket.close_event 0; VetSocket.timer]
             ++ [VetSocket.unmount])
      VetSocket.start in
  length (Dashboards.sockets (VetSocket.net after)) = 4%nat
  /\ VetSocket.closed_by_page after = [0%nat; 1%nat]
  /\ ~ In 2%nat (VetSocket.closed_by_page after).
Proof.
  cbv zeta. split; [reflexivity|]. split; [reflexivity|].
  pose proof (effect_cleanup_misses_own_socket "ws://localhost:8000"
                Samples.vetB [VetSocket.effect; VetSocket.effect]
                [VetSocket.close_event 0; VetSocket.timer] eq_refl)
    as (_ & Hnot & _).
  cbv zeta in Hnot. unfold VetSocket.run in *. rewrite foldl_app.
  exact Hnot.
Defined.

Section OfferBound.
Import VideoCall Protocol Offers.

Lemma handle_timers ev w :
  timers (handle ev w)
  = match ev with
    | ws_open => timers (handle ws_open w)
    | timeout _ => drop 1 (timers w)
    | _ => timers w
    end.
Proof.
  destruct ev; cbn [handle]; try reflexivity.
  - destruct gum, w as [[[u|] sid wsurl ti] st pc ws ts tm cs]; reflexivity.
  - unfold exec. by rewrite cleanup_spec.
  - destruct (bool_decide _); [|reflexivity].
    unfold exec, onmessage. js_simpl.
    destruct (String.eqb (type data) "ready").
    { destruct (String.eqb (role (env w)) "farmer"); [|reflexivity].
      destruct w as [e st [[[]]|] [[u []]|] ts tm cs], rtc; reflexivity. }
    destruct (String.eqb (type data) "offer").
    { destruct w as [e st [[[]]|] [[u []]|] ts tm cs], rtc, (sdp data);
        reflexivity. }
    destruct (String.eqb (type data) "answer"); [reflexivity|].
    destruct (String.eqb (type data) "ice-candidate"); [reflexivity|].
    destruct (String.eqb (type data) "hangup").
    { unfold handleRemoteHangup, toast_info. js_simpl.
      destruct (toast_info_defined (env w)); [|reflexivity].
      by rewrite cleanup_spec. }
    destruct (String.eqb (type data) "peer-disconnected"); reflexivity.
  - by destruct (bool_decide _).
  - destruct (bool_decide _); [|reflexivity].
    unfold exec, onclose, set_readyState. cbn.
    by destruct (signalingSocket w).
  - destruct (bool_decide _); [|reflexivity].
    destruct c, w as [e st pc [[u []]|] ts tm cs]; reflexivity.
  - by destruct (bool_decide _).
  - destruct (bool_decide _); [|reflexivity].
    unfold exec, onconnectionstatechange.
    by repeat destruct (String.eqb _ _).
  - destruct w as [e st [[[]]|] [[u []]|] ts [|t tm] cs], rtc; reflexivity.
  - unfold exec. rewrite endCall_spec. cbn [snd].
    unfold exec. rewrite cleanup_spec. cbn.
    by destruct (socket_open w).
  - unfold exec. rewrite toggleMute_eq. cbn [snd].
    by destruct (bool_decide _).
  - unfold exec. rewrite toggleVideo_eq. cbn [snd].
    by destruct (bool_decide _).
Qed.

Lemma offers_app_one w w' m :
  frames (calls w') = frames (calls w) ++ [m] ->
  offers w' = offers w + (if is_offer_frame m then 1 else 0).
Proof.
  intros H. unfold offers. rewrite H, List.filter_app, length_app. cbn.
  by destruct (is_offer_frame m).
Qed.

Lemma offers_same w w' :
  frames (calls w') = frames (calls w) -> offers w' = offers w.
Proof. intros H. unfold offers. by rewrite H. Qed.

Lemma ws_open_timers w :
  (length (timers (handle ws_open w)) <= length (timers w) + 1)%nat.
Proof.
  cbn [handle].
  destruct w as [e st pc [[u []]|] ts tm cs]; cbn; try lia.
  unfold exec, onopen, ws_send. js_simpl. cbn.
  destruct (String.eqb (role e) "farmer"); cbn;
    rewrite ?length_app; cbn; lia.
Qed.

Lemma offer_budget_handle ev w :
  (offers (handle ev w) + length (timers (handle ev w))
   <= offers w + length (timers w) + chance ev)%nat.
Proof.
  pose proof (handle_timers ev w) as Ht.
  destruct (handle_frames ev w) as [Hf|(m & Hm & Hf)].
  - rewrite (offers_same _ _ Hf).
    pose proof (ws_open_timers w).
    destruct ev; try rewrite Ht; cbn [chance]; rewrite ?length_drop;
      repeat match goal with
             | |- context [if ?b then _ else _] => destruct b
             end; lia.
  - rewrite (offers_app_one _ _ _ Hf).
    destruct ev; cbn in Hm; try discriminate; try rewrite Ht.
    + injection Hm as <-. pose proof (ws_open_timers w).
      cbn [chance is_offer_frame]. lia.
    + destruct rtc as [o|]; [|discriminate]. cbn [chance].
      destruct (String.eqb (type data) "ready");
        [injection Hm as <-; cbn; lia|].
      destruct (String.eqb (type data) "offer"); [|discriminate].
      injection Hm as <-. cbn. lia.
    + destruct c; [|discriminate]. injection Hm as <-. cbn. lia.
    + destruct rtc as [o|]; [|discriminate]. injection Hm as <-.
      cbn [is_offer_frame chance]. rewrite length_drop.
      destruct (timers w) as [|t tm] eqn:Htm; [|cbn; lia].
      (* no timer pending: the event is not handled, nothing was written *)
      exfalso. cbn [handle] in Hf. rewrite Htm in Hf.
      apply (f_equal length) in Hf. rewrite length_app in Hf. cbn in Hf. lia.
    + injection Hm as <-. cbn. lia.
Qed.

End OfferBound.

(** X19.  Offers are bounded by their causes.  In every run of the
    page, the number of offers written so far plus the number of
    [createOffer] timers still pending is at most the number of times
    the socket opened plus the number of ['ready'] frames received: an
    offer is never created spontaneously or more than once per cause. *)
Theorem offers_bounded_by_causes (e : VideoCall.Env)
    (evs : list VideoCall.Event) :
  (Offers.offers (VideoCall.run evs (VideoCall.init e))
   + length (VideoCall.timers (VideoCall.run evs (VideoCall.init e)))
   <= Offers.chances evs)%nat.
Proof.
  assert (Hrun : forall evs w,
             (Offers.offers (VideoCall.run evs w)
              + length (VideoCall.timers (VideoCall.run evs w))
              <= Offers.offers w + length (VideoCall.timers w)
                 + Offers.chances evs)%nat).
  { clear evs. induction evs as [|ev evs IH]; intros w; [cbn; lia|].
    rewrite run_cons. cbn [Offers.chances].
    pose proof (IH (VideoCall.handle ev w)).
    pose proof (offer_budget_handle ev w). lia. }
  specialize (Hrun evs (VideoCall.init e)). cbn in Hrun. exact Hrun.
Qed.


